(** * rapid.js: route templates, custom routes and the request lifecycle

    A shallow embedding of [CustomRoute] (URL templating) and of the
    [Request] class (session accumulation, verb validation, hooks,
    dispatch and reset), with the properties of the specification stated
    and settled against it. *)

From Stdlib Require Import String Ascii ZArith List Bool Lia.
From Stdlib Require Import Numbers.DecimalString.
From stdpp Require Import gmap strings.

Local Open Scope string_scope.
Local Set Warnings "-register-all".

(** ** JavaScript values

    Strings are sequences of code units; the model keeps the code units
    below 256 (one [ascii] each).  Numbers are the safe integers (magnitude
    below 2^53), the integral numbers that print as their decimal digits.
    An object is the list of its own properties; functions are not values
    of the model. *)

Record safe_integer : Type :=
  { integer : Z;
    integer_safe : Is_true (Z.abs integer <=? 9007199254740991)%Z }.

Inductive jsval : Type :=
| JUndefined
| JNull
| JBool (b : bool)
| JNumber (n : safe_integer)
| JString (s : string)
| JObject (props : list (string * jsval)).

Notation "'JNum' n" := (JNumber {| integer := n; integer_safe := I |})
  (at level 10, n at level 9).

(** The string that [ToString] gives for a value, when it gives one (see
    [ToString] below for the objects it refuses). *)
Definition toString (v : jsval) : string :=
  match v with
  | JUndefined => "undefined"
  | JNull => "null"
  | JBool true => "true"
  | JBool false => "false"
  | JNumber n => NilZero.string_of_int (Z.to_int (integer n))
  | JString s => s
  | JObject _ => "[object Object]"
  end.

(** The names that every plain object answers to through
    [Object.prototype]. *)
Definition inherited_names : list string :=
  [ "constructor"; "hasOwnProperty"; "isPrototypeOf"; "propertyIsEnumerable";
    "toLocaleString"; "toString"; "valueOf"; "__proto__"; "__defineGetter__";
    "__defineSetter__"; "__lookupGetter__"; "__lookupSetter__" ].

Definition own_name (k : string) : bool :=
  negb (bool_decide (k ∈ inherited_names)).

Definition has_own (k : string) (props : list (string * jsval)) : bool :=
  existsb (fun kv => String.eqb (fst kv) k) props.

(** What a JavaScript computation can throw. *)
Inductive exn : Type :=
| JsError (msg : string)
| JsTypeError (msg : string)
| Raised (v : jsval).

Inductive result (A : Type) : Type :=
| Returns (a : A)
| Throws (e : exn).
Arguments Returns {A} a.
Arguments Throws {A} e.

Definition rbind {A B} (r : result A) (k : A -> result B) : result B :=
  match r with
  | Returns a => k a
  | Throws e => Throws e
  end.

Fixpoint rmap {A B} (f : A -> result B) (l : list A) : result (list B) :=
  match l with
  | [] => Returns []
  | x :: l' =>
      rbind (f x) (fun y => rbind (rmap f l') (fun ys => Returns (y :: ys)))
  end.

(** [ToString] of a value, as [String.prototype.replace] applies it to a
    replacement that is not a function and as a property assignment applies
    it to its key.  An object is converted by [OrdinaryToPrimitive]: its
    [toString] member is called when it is callable, then its [valueOf]
    member.  An own [toString] property of the model is not callable, and
    [valueOf], own or inherited, then gives no primitive: the conversion
    throws a [TypeError].  Without an own [toString], the inherited one
    answers. *)
Definition ToString (v : jsval) : result string :=
  match v with
  | JObject props =>
      if has_own "toString" props
      then Throws (JsTypeError "Cannot convert object to primitive value")
      else Returns "[object Object]"
  | _ => Returns (toString v)
  end.

(** ** Object.prototype

    What a plain object inherits: the functions of [Object.prototype] and
    the accessor [__proto__]. *)
Module ObjectPrototype.

Inductive method : Type :=
| Object_constructor
| hasOwnProperty
| isPrototypeOf
| propertyIsEnumerable
| toLocaleString
| proto_toString
| valueOf
| defineGetter
| defineSetter
| lookupGetter
| lookupSetter.

Inductive member : Type :=
| Method (m : method)
| Proto.

Definition members : list (string * member) :=
  [ ("constructor", Method Object_constructor);
    ("hasOwnProperty", Method hasOwnProperty);
    ("isPrototypeOf", Method isPrototypeOf);
    ("propertyIsEnumerable", Method propertyIsEnumerable);
    ("toLocaleString", Method toLocaleString);
    ("toString", Method proto_toString);
    ("valueOf", Method valueOf);
    ("__proto__", Proto);
    ("__defineGetter__", Method defineGetter);
    ("__defineSetter__", Method defineSetter);
    ("__lookupGetter__", Method lookupGetter);
    ("__lookupSetter__", Method lookupSetter) ].

Definition lookup (name : string) : option member :=
  option_map snd (find (fun km => String.eqb (fst km) name) members).

(** The string form of what a method returns when it is called as a
    replacer function: with the matched text as first argument and
    [undefined] as [this].  [Object(text)] wraps the text, whose string form
    is the text; [Object.prototype.toString] answers for [undefined];
    [isPrototypeOf] answers [false] for an argument that is not an object;
    the others start by converting [this] to an object, which throws. *)
Definition call (m : method) (matched : string) : result string :=
  match m with
  | Object_constructor => Returns matched
  | proto_toString => Returns "[object Undefined]"
  | isPrototypeOf => Returns "false"
  | hasOwnProperty | propertyIsEnumerable | toLocaleString | valueOf
  | defineGetter | defineSetter | lookupGetter | lookupSetter =>
      Throws (JsTypeError "Cannot convert undefined or null to object")
  end.

End ObjectPrototype.

(** ** Strings and the two regular expressions *)

Module JsString.

Definition in_range (lo hi : N) (c : ascii) : bool :=
  let n := N_of_ascii c in (lo <=? n)%N && (n <=? hi)%N.

(** [\w]: [A-Za-z0-9_]. *)
Definition is_word (c : ascii) : bool :=
  in_range 65 90 c || in_range 97 122 c || in_range 48 57 c
  || Ascii.eqb c "_".

(** [[\w\.]]. *)
Definition is_word_or_dot (c : ascii) : bool :=
  is_word c || Ascii.eqb c ".".

(** [\s] on code units below 256: TAB, LF, VT, FF, CR, SP and NBSP. *)
Definition is_space (c : ascii) : bool :=
  in_range 9 13 c || in_range 32 32 c || in_range 160 160 c.

Definition is_char (d : ascii) (c : ascii) : bool := Ascii.eqb c d.

(** [String.prototype.toLowerCase] on code units below 256: the ASCII
    capitals and the Latin-1 capitals (all of C0..DE but the
    multiplication sign D7) move up by 32. *)
Definition lower_char (c : ascii) : ascii :=
  if in_range 65 90 c || in_range 192 214 c || in_range 216 222 c
  then ascii_of_N (N_of_ascii c + 32)
  else c.

Fixpoint toLowerCase (s : string) : string :=
  match s with
  | EmptyString => EmptyString
  | String c s' => String (lower_char c) (toLowerCase s')
  end.

(** A regular expression of the shape the source uses: a sequence of
    character classes, each taken once, [*] or [+] (greedy). *)
Inductive quant : Type := Once | ZeroOrMore | OneOrMore.

Definition regex : Type := list ((ascii -> bool) * quant).

(** Greedy repetition with backtracking: take a character of the class
    and go on; when the rest fails from there, give it back. The result is
    the text matched from here to the end of the expression. *)
Fixpoint match_star (p : ascii -> bool) (k : string -> option string)
    (s : string) : option string :=
  match s with
  | String c s' =>
      if p c then
        match match_star p k s' with
        | Some m => Some (String c m)
        | None => k s
        end
      else k s
  | EmptyString => k s
  end.

(** The match of [r] anchored at the start of [s], if there is one. *)
Fixpoint match_here (r : regex) (s : string) : option string :=
  match r with
  | [] => Some EmptyString
  | (p, Once) :: r' =>
      match s with
      | String c s' => if p c then String c <$> match_here r' s' else None
      | EmptyString => None
      end
  | (p, ZeroOrMore) :: r' => match_star p (match_here r') s
  | (p, OneOrMore) :: r' =>
      match s with
      | String c s' =>
          if p c then String c <$> match_star p (match_here r') s' else None
      | EmptyString => None
      end
  end.

(** [s.match(r)] for [r] without the [g] flag: the leftmost match ([[0]]
    of the result), or [None] for [null]. *)
Fixpoint match_first (r : regex) (s : string) : option string :=
  match match_here r s with
  | Some m => Some m
  | None =>
      match s with
      | String _ s' => match_first r s'
      | EmptyString => None
      end
  end.

(** The successive matches of a [g] expression. [skip] counts the
    characters still covered by the last match: the next attempt starts
    where that match ended (one further when it was empty). *)
Fixpoint match_all_from (r : regex) (skip : nat) (s : string)
    : list string :=
  match skip with
  | S k =>
      match s with
      | String _ s' => match_all_from r k s'
      | EmptyString => []
      end
  | O =>
      match match_here r s with
      | Some m =>
          m :: match s with
               | String _ s' => match_all_from r (pred (String.length m)) s'
               | EmptyString => []
               end
      | None =>
          match s with
          | String _ s' => match_all_from r 0 s'
          | EmptyString => []
          end
      end
  end.

(** [s.match(r)] for [r] with the [g] flag: all matches, [None] ([null])
    when there is none. *)
Definition match_global (r : regex) (s : string) : option (list string) :=
  match match_all_from r 0 s with
  | [] => None
  | ms => Some ms
  end.

(** [s] without its prefix [pat], when it starts with it. *)
Fixpoint strip_prefix (pat s : string) : option string :=
  match pat with
  | EmptyString => Some s
  | String a pat' =>
      match s with
      | String c s' => if Ascii.eqb a c then strip_prefix pat' s' else None
      | EmptyString => None
      end
  end.

(** The text before and after the first occurrence of [pat] in [s]. *)
Fixpoint split_first (pat s : string) : option (string * string) :=
  match strip_prefix pat s with
  | Some post => Some (EmptyString, post)
  | None =>
      match s with
      | String c s' =>
          match split_first pat s' with
          | Some (pre, post) => Some (String c pre, post)
          | None => None
          end
      | EmptyString => None
      end
  end.

(** [GetSubstitution] for a string pattern (no captures): [$$], [$&],
    [$`] and [$'] are expanded, any other [$] stays. *)
Fixpoint getSubstitution (matched pre post repl : string) : string :=
  match repl with
  | EmptyString => EmptyString
  | String c r =>
      if Ascii.eqb c "$" then
        match r with
        | String d r' =>
            if Ascii.eqb d "$" then String "$" (getSubstitution matched pre post r')
            else if Ascii.eqb d "&" then matched ++ getSubstitution matched pre post r'
            else if Ascii.eqb d "`" then pre ++ getSubstitution matched pre post r'
            else if Ascii.eqb d "'" then post ++ getSubstitution matched pre post r'
            else String c (getSubstitution matched pre post r)
        | EmptyString => String c EmptyString
        end
      else String c (getSubstitution matched pre post r)
  end.

(** What [replace] is given as its second argument: a value that is not
    callable, a function of [Object.prototype], or [Object.prototype]
    itself. *)
Inductive replacer : Type :=
| Value (v : jsval)
| Function (m : ObjectPrototype.method)
| Prototype.

(** [s.replace(pat, r)] for a string [pat]: the first occurrence only.  A
    replacement that is not callable is converted to a string before the
    search, so that a conversion that throws does so even when [pat] does
    not occur; its [$] patterns are then expanded.  A function is called
    when [pat] occurs, and what it returns is inserted as it is. *)
Definition replace (s pat : string) (r : replacer) : result string :=
  match r with
  | Value v =>
      rbind (ToString v) (fun text =>
        match split_first pat s with
        | Some (pre, post) =>
            Returns (pre ++ getSubstitution pat pre post text ++ post)
        | None => Returns s
        end)
  | Prototype =>
      match split_first pat s with
      | Some (pre, post) =>
          Returns (pre ++ getSubstitution pat pre post "[object Object]" ++ post)
      | None => Returns s
      end
  | Function m =>
      match split_first pat s with
      | Some (pre, post) =>
          rbind (ObjectPrototype.call m pat) (fun text =>
            Returns (pre ++ text ++ post))
      | None => Returns s
      end
  end.

(** [/{\s*[\w\.]+\s*}/g] *)
Definition placeholder_re : regex :=
  [ (is_char "{", Once); (is_space, ZeroOrMore); (is_word_or_dot, OneOrMore);
    (is_space, ZeroOrMore); (is_char "}", Once) ].

(** [/[\w\.]+/] *)
Definition name_re : regex := [ (is_word_or_dot, OneOrMore) ].

End JsString.

(** ** CustomRoute *)

Module CustomRoute.

(** Modelled from the spec: the [RequestType] enumeration of
    [./request], which is not part of the sources at hand. The spec's
    VerbEnum is the closed set GET, POST, PUT, PATCH, HEAD, DELETE. *)
Inductive RequestType : Type := GET | POST | PUT | PATCH | HEAD | DELETE.

(** Modelled from the spec: the lookup [RequestType[member]], the
    "normalized verb enum value" of a member, is the verb's name. *)
Definition RequestType_lookup (t : RequestType) : string :=
  match t with
  | GET => "GET" | POST => "POST" | PUT => "PUT"
  | PATCH => "PATCH" | HEAD => "HEAD" | DELETE => "DELETE"
  end.

(** A route as the configuration gives it: any field may be left out. *)
Record RouteDefinition : Type := {
  def_url : option string;
  def_type : option RequestType;
  def_name : option string;
}.

Definition no_definition : RouteDefinition :=
  {| def_url := None; def_type := None; def_name := None |}.

Record Route : Type := {
  route_url : string;
  route_type : RequestType;
  route_name : string;
}.

Record t : Type := {
  route : Route;
  routeParams : gmap string jsval;
}.

(** [constructor(route = {}, config = {})]: both arguments are laid over
    their defaults with [Object.assign]. *)
Definition new (r : option RouteDefinition)
    (config : option (gmap string jsval)) : t :=
  let r := default no_definition r in
  {| route := {| route_url := default "" (def_url r);
                 route_type := default GET (def_type r);
                 route_name := default "" (def_name r) |};
     routeParams := default ∅ config |}.

Definition rawURL (c : t) : string := route_url (route c).
Definition name (c : t) : string := route_name (route c).
Definition type (c : t) : string := RequestType_lookup (route_type (route c)).

(** [x.match(/[\w\.]+/)[0]]: indexing [null] is a TypeError. *)
Definition first_name (x : string) : result string :=
  match JsString.match_first JsString.name_re x with
  | Some m => Returns m
  | None => Throws (JsTypeError "Cannot read properties of null")
  end.

Definition urlParams (c : t) : result (list string) :=
  match JsString.match_global JsString.placeholder_re (rawURL c) with
  | Some params => rmap first_name params
  | None => Returns []
  end.

(** [this.config.routeParams[param]]: the own property when there is one,
    else what [Object.prototype] has under that name, else [undefined]. *)
Definition param_value (c : t) (param : string) : JsString.replacer :=
  match routeParams c !! param with
  | Some v => JsString.Value v
  | None =>
      match ObjectPrototype.lookup param with
      | Some (ObjectPrototype.Method m) => JsString.Function m
      | Some ObjectPrototype.Proto => JsString.Prototype
      | None => JsString.Value JUndefined
      end
  end.

(** One turn of the [forEach] loop. *)
Definition replaceURLParam (c : t) (url : result string) (param : string)
    : result string :=
  rbind url (fun url =>
    JsString.replace url ("{" ++ param ++ "}") (param_value c param)).

Definition replaceURLParams (c : t) : result string :=
  let url := rawURL c in
  rbind (urlParams c) (fun ps =>
    if negb (length ps =? 0)%nat && negb (size (routeParams c) =? 0)%nat then
      rbind (urlParams c) (fun ps =>
        fold_left (replaceURLParam c) ps (Returns url))
    else Returns url).

Definition url (c : t) : result string := replaceURLParams c.

End CustomRoute.

(** ** lodash's [defaultsDeep] *)

Module Lodash.

Definition props : Type := list (string * jsval).

(** [o[k]] among the own properties: [undefined] for a property [o] does
    not have.  For a name of [inherited_names] that [o] does not have,
    JavaScript answers with the member of [Object.prototype]: what is stated
    through [get] about values read by lodash is stated for objects that
    have no such name ([own_names]). *)
Fixpoint get (k : string) (o : props) : jsval :=
  match o with
  | [] => JUndefined
  | (k', v) :: o' => if String.eqb k' k then v else get k o'
  end.

(** [o[k] = v]: in place for a property [o] has, a new last property
    otherwise (the place of a new array index among the properties is not
    modelled: properties are compared through [get]). *)
Fixpoint set (k : string) (v : jsval) (o : props) : props :=
  match o with
  | [] => [(k, v)]
  | (k', v') :: o' =>
      if String.eqb k' k then (k', v) :: o' else (k', v') :: set k v o'
  end.

Section Merge.
Variable customizer : jsval -> jsval -> jsval.

(** [mergeWith(object, source, customizer)]: the properties of the
    source, in order, each assigned to the object as the customizer
    decides from the object's value and the source's. *)
Fixpoint mergeWith (object source : props) : props :=
  match source with
  | [] => object
  | (k, srcValue) :: source' =>
      mergeWith (set k (customizer (get k object) srcValue) object) source'
  end.
End Merge.

(** The customizer of [defaultsDeep]: a value the object has stays, two
    objects are merged the same way, and only [undefined] gives way to
    the source's value. *)
Fixpoint customDefaultsMerge (objValue srcValue : jsval) {struct srcValue}
    : jsval :=
  match srcValue with
  | JObject source =>
      match objValue with
      | JUndefined => srcValue
      | JObject object =>
          JObject
            ((fix merge (object source : props) {struct source} : props :=
                match source with
                | [] => object
                | (k, v) :: source' =>
                    merge (set k (customDefaultsMerge (get k object) v) object)
                      source'
                end) object source)
      | _ => objValue
      end
  | _ =>
      match objValue with
      | JUndefined => srcValue
      | _ => objValue
      end
  end.

(** A value that is there and is not an object: a merge keeps it as it
    is. *)
Definition is_leaf (v : jsval) : bool :=
  match v with
  | JUndefined | JObject _ => false
  | _ => true
  end.

Definition keys (o : props) : list string := map fst o.

(** A value none of whose objects, at any depth, has a property named like
    a member of [Object.prototype]: lodash reads [object[key]] through the
    prototype, and such a property of the source is not copied. *)
Fixpoint own_names (v : jsval) : bool :=
  match v with
  | JObject o =>
      (fix all (o : props) : bool :=
         match o with
         | [] => true
         | (k, x) :: o' => own_name k && own_names x && all o'
         end) o
  | _ => true
  end.

(** [defaultsDeep(object, source)]: the first argument is the
    destination, the second one supplies the defaults. *)
Definition defaultsDeep (object source : props) : props :=
  mergeWith customDefaultsMerge object source.

End Lodash.

(** ** Request *)

Module Request.

Record Config : Type := {
  allowedRequestTypes : list string;
  debug : bool;
  trailingSlash : bool;
  baseURL : string;
  (** the three hooks, [config.beforeRequest], [config.afterRequest] and
      [config.onError]: each returns or throws, and none of them touches
      the session *)
  beforeRequest_hook : string -> string -> result unit;
  afterRequest_hook : jsval -> result unit;
  onError_hook : exn -> result unit;
}.

(** What the class takes from [Core] and from [../utils], none of which
    is among the sources at hand: the configuration, the route table and
    the collaborators, each a function of its arguments. *)
Record Self : Type := {
  config : Config;
  customRoutes : gmap string CustomRoute.RouteDefinition;
  isAllowedRequestType : string -> Config -> bool;
  sanitizeUrl : string -> bool -> string;
  parseRequestData : string -> Lodash.props -> Config -> list jsval;
  makeUrl : list jsval -> string;
}.

(** The mutable session. [urlParams] is either an array ([Some], which
    JavaScript takes for true even when empty) or cleared ([None]). *)
Record Session : Type := {
  requestData : Lodash.props;
  urlParams : option (list jsval);
}.

(** What the builder does to the outside, in order. *)
Inductive event : Type :=
| BeforeRequestHook (type url : string)
| FakeRequest (type url : string)
| Transport (type url : string) (args : list jsval)
| AfterRequestHook (response : jsval)
| OnErrorHook (error : exn)
| ResetRequestData
| ResetURLParams
| Resolve (response : jsval)
| Reject (error : exn).

(** What [request] returns: the promise of the debugger's
    [fakeRequest(type, url)], or the new promise around the transport
    call, still pending. *)
Inductive promise : Type :=
| FakePromise (type url : string)
| Pending (type url : string) (args : list jsval).

(** How the transport's promise settles. *)
Inductive settlement : Type :=
| Fulfilled (response : jsval)
| Rejected (error : exn).

(** Computations over the session that log events and may throw; the
    session and the log survive a throw. *)
Definition M (A : Type) : Type :=
  Session -> result A * Session * list event.

Definition ret {A} (a : A) : M A := fun s => (Returns a, s, []).

Definition bind {A B} (m : M A) (k : A -> M B) : M B :=
  fun s =>
    match m s with
    | (Returns a, s1, l1) =>
        match k a s1 with
        | (r, s2, l2) => (r, s2, (l1 ++ l2)%list)
        end
    | (Throws e, s1, l1) => (Throws e, s1, l1)
    end.

Definition throw {A} (e : exn) : M A := fun s => (Throws e, s, []).
Definition emit (ev : event) : M unit := fun s => (Returns tt, s, [ev]).
Definition read : M Session := fun s => (Returns s, s, []).
Definition write (s : Session) : M unit := fun _ => (Returns tt, s, []).
Definition lift {A} (r : result A) : M A := fun s => (r, s, []).

(** A promise reaction: what [handler] throws goes to [recover]. *)
Definition catch {A} (handler : M A) (recover : exn -> M A) : M A :=
  fun s =>
    match handler s with
    | (Returns a, s1, l1) => (Returns a, s1, l1)
    | (Throws e, s1, l1) =>
        match recover e s1 with
        | (r, s2, l2) => (r, s2, (l1 ++ l2)%list)
        end
    end.

#[export] Instance M_ret : MRet M := @ret.
#[export] Instance M_bind : MBind M := fun A B k m => bind m k.

Definition result_of {A} (x : result A * Session * list event) : result A :=
  x.1.1.
Definition session_of {A} (x : result A * Session * list event) : Session :=
  x.1.2.
Definition events_of {A} (x : result A * Session * list event) : list event :=
  x.2.

Definition is_reset_data (ev : event) : bool :=
  match ev with ResetRequestData => true | _ => false end.

Definition is_reset_url (ev : event) : bool :=
  match ev with ResetURLParams => true | _ => false end.

(** How many events of a log satisfy [p]. *)
Definition count (p : event -> bool) (log : list event) : nat :=
  length (filter (fun ev => p ev = true) log).

(** The promise that [request] made is settled by this event. *)
Definition is_settled (ev : event) : bool :=
  match ev with Resolve _ | Reject _ => true | _ => false end.

Definition is_resolve (ev : event) : bool :=
  match ev with Resolve _ => true | _ => false end.

(** A call of the transport or of the debugger's fake request. *)
Definition is_dispatch (ev : event) : bool :=
  match ev with Transport _ _ _ | FakeRequest _ _ => true | _ => false end.

Definition empty_object : jsval := JObject [].

(** Modelled from the spec: [resetRequestData] of [Core], which is not
    among the sources at hand. "[data], [params], [options] are cleared
    to empty containers". *)
Definition resetRequestData : M unit :=
  emit ResetRequestData ;;
  s ← read;
  write {| requestData := [("data", empty_object); ("params", empty_object);
                           ("options", empty_object)];
           urlParams := urlParams s |}.

(** Modelled from the spec: [resetURLParams] of [Core], which is not
    among the sources at hand. "pending positional [urlParams] are
    cleared". *)
Definition resetURLParams : M unit :=
  emit ResetURLParams ;;
  s ← read;
  write {| requestData := requestData s; urlParams := None |}.

Section Methods.
Variable self : Self.

Definition beforeRequest (type url : string) : M unit :=
  emit (BeforeRequestHook type url) ;;
  lift (beforeRequest_hook (config self) type url).

Definition afterRequest (response : jsval) : M unit :=
  resetRequestData ;;
  resetURLParams ;;
  emit (AfterRequestHook response) ;;
  lift (afterRequest_hook (config self) response).

Definition onError (error : exn) : M unit :=
  resetRequestData ;;
  resetURLParams ;;
  emit (OnErrorHook error) ;;
  lift (onError_hook (config self) error).

(** The synchronous part of [request]: up to the call of the transport
    (the promise's executor runs at once). The transport has a method for
    every allowed type, and the method returns a promise. *)
Definition request (type url : string) : M promise :=
  let type := JsString.toLowerCase type in
  if negb (isAllowedRequestType self type (config self)) then
    throw (JsError "This request type is not allowed.")
  else
    beforeRequest type url ;;
    if debug (config self) then
      emit (FakeRequest type url) ;;
      ret (FakePromise type url)
    else
      s ← read;
      let url := sanitizeUrl self url (trailingSlash (config self)) in
      let args := parseRequestData self type (requestData s) (config self) in
      emit (Transport type url args) ;;
      ret (Pending type url args).

(** The reactions [.then(...).catch(...)] that [request] puts on the
    transport's promise: the [catch] reaction also takes what the
    [then] reaction throws. *)
Definition reactions (o : settlement) : M unit :=
  match o with
  | Fulfilled response =>
      catch (afterRequest response ;; emit (Resolve response))
            (fun error => onError error ;; emit (Reject error))
  | Rejected error => onError error ;; emit (Reject error)
  end.

(** What the class runs when the promise that [request] returned
    settles: its reactions for the promise around the transport call,
    nothing of its own for the debugger's promise. *)
Definition settle (p : promise) (o : settlement) : M unit :=
  match p with
  | Pending _ _ _ => reactions o
  | FakePromise _ _ => ret tt
  end.

(** [urlParams] is the array of the arguments of a verb method, and still
    an array after [concat]: [makeUrl] is always called on its elements. *)
Definition buildRequest (type : string) (urlParams' : list jsval)
    : M promise :=
  s ← read;
  urlParams' ← match urlParams s with
                | Some pending =>
                    resetURLParams ;; ret ((pending ++ urlParams')%list)
                | None => ret urlParams'
                end;
  let url := makeUrl self urlParams' in
  request type url.

(** [this[requestType]], there for the configured types only. *)
Definition verb (requestType : string) (urlParams' : list jsval)
    : M promise :=
  if bool_decide (requestType ∈ allowedRequestTypes (config self)) then
    buildRequest requestType urlParams'
  else throw (JsTypeError "not a function").

Definition getCustomRoute (name : string) (routeParams : gmap string jsval)
    : CustomRoute.t :=
  match customRoutes self !! name with
  | Some def => CustomRoute.new (Some def) (Some routeParams)
  | None => CustomRoute.new None None
  end.

Definition generate (name : string) (routeParams : gmap string jsval)
    : M string :=
  url ← lift (CustomRoute.url (getCustomRoute name routeParams));
  if negb (String.eqb url "") then
    ret (makeUrl self [JString (baseURL (config self)); JString url])
  else ret "".

Definition withData (data : Lodash.props) : M unit :=
  s ← read;
  write {| requestData := Lodash.defaultsDeep data (requestData s);
           urlParams := urlParams s |}.

Definition withParams (params : Lodash.props) : M unit :=
  s ← read;
  write {| requestData := Lodash.set "params" (JObject params) (requestData s);
           urlParams := urlParams s |}.

Definition withOptions (options : Lodash.props) : M unit :=
  s ← read;
  write {| requestData := Lodash.set "options" (JObject options) (requestData s);
           urlParams := urlParams s |}.

Definition route (name : string) (routeParams : gmap string jsval)
    (requestParams : Lodash.props) : M promise :=
  let route := getCustomRoute name routeParams in
  (if negb (length requestParams =? 0)%nat then withParams requestParams
   else ret tt) ;;
  url ← lift (CustomRoute.url route);
  request (CustomRoute.type route) url.

(** [this.requestData[field][key] = value]. The file is module code, hence
    strict: a field that holds no object ([undefined], [null] or a
    primitive) cannot take the property, and the assignment throws a
    TypeError.  The key becomes a property key, its string form by
    [ToString], which throws a TypeError of its own for a key that has no
    string form.  (Under the key [__proto__] JavaScript sets the prototype
    and adds no property: what is stated about the entry added is stated
    for the other keys.) *)
Definition assign_member (field : string) (key value : jsval) : M unit :=
  s ← read;
  match Lodash.get field (requestData s) with
  | JObject members =>
      match ToString key with
      | Returns name =>
          write {| requestData :=
                     Lodash.set field
                       (JObject (Lodash.set name value members))
                       (requestData s);
                   urlParams := urlParams s |}
      | Throws e => throw e
      end
  | _ => throw (JsTypeError "Cannot set properties")
  end.

Definition withParam (key value : jsval) : M unit :=
  assign_member "params" key value.

Definition withOption (key value : jsval) : M unit :=
  assign_member "options" key value.

End Methods.

End Request.

(** ** Templates, as the specification reads them

    A template is literal text with placeholders in it; the properties of
    extraction and resolution are stated over templates given by their
    parts. *)

Module Template.

Fixpoint sforall (p : ascii -> bool) (s : string) : bool :=
  match s with
  | EmptyString => true
  | String c s' => p c && sforall p s'
  end.

Fixpoint sexists (p : ascii -> bool) (s : string) : bool :=
  match s with
  | EmptyString => false
  | String c s' => p c || sexists p s'
  end.

(** [s] does not begin with a character of class [p]. *)
Definition stops (p : ascii -> bool) (s : string) : bool :=
  match s with
  | EmptyString => true
  | String c _ => negb (p c)
  end.

(** No opening brace in [s]. *)
Definition brace_free (s : string) : bool :=
  sforall (fun c => negb (JsString.is_char "{" c)) s.

Definition dollar_free (s : string) : bool :=
  sforall (fun c => negb (JsString.is_char "$" c)) s.

Definition all_space (s : string) : bool := sforall JsString.is_space s.

(** A name: word characters and dots, at least one. *)
Definition is_name (s : string) : bool :=
  negb (String.eqb s "") && sforall JsString.is_word_or_dot s.

(** Literal text followed by one placeholder, the name padded with white
    space inside the braces. *)
Record part : Type := {
  lead : string;
  pad_left : string;
  ident : string;
  pad_right : string;
}.

Definition token (p : part) : string :=
  "{" ++ pad_left p ++ ident p ++ pad_right p ++ "}".

Fixpoint render (parts : list part) (tail : string) : string :=
  match parts with
  | [] => tail
  | p :: parts' => lead p ++ token p ++ render parts' tail
  end.

(** The placeholder of [p] is one: white space, a name, white space. *)
Definition token_ok (p : part) : bool :=
  all_space (pad_left p) && is_name (ident p) && all_space (pad_right p).

Definition well_formed (p : part) : bool :=
  brace_free (lead p) && token_ok p.

(** [s] opens with a placeholder. *)
Definition opens_with_placeholder (s : string) : Prop :=
  exists p rest, token_ok p = true /\ s = token p ++ rest.

(** No placeholder opens inside [text], which is followed by [rest]. *)
Definition quiet (text rest : string) : Prop :=
  forall a b, text = a ++ b -> b <> "" -> ~ opens_with_placeholder (b ++ rest).

(** The names of the placeholders of a template, from left to right: the
    first placeholder that opens, then those of the text after it. *)
Inductive placeholders : string -> list string -> Prop :=
| placeholders_none s :
    quiet s "" -> placeholders s []
| placeholders_next text p rest names :
    token_ok p = true -> quiet text (token p ++ rest) ->
    placeholders rest names ->
    placeholders (text ++ token p ++ rest) (ident p :: names).

(** A placeholder written [{name}], without padding. *)
Definition plain (p : part) : bool :=
  String.eqb (pad_left p) "" && String.eqb (pad_right p) "".

(** No [$] pattern in [s]: no [$] followed by [$], [&], a backquote or a
    quote. *)
Fixpoint pattern_free (s : string) : bool :=
  match s with
  | EmptyString => true
  | String c r =>
      (if Ascii.eqb c "$" then
         match r with
         | String d _ =>
             negb (Ascii.eqb d "$" || Ascii.eqb d "&" || Ascii.eqb d "`"
                   || Ascii.eqb d "'")
         | EmptyString => true
         end
       else true)
      && pattern_free r
  end.

(** The text that resolution puts for a name: the string form of the
    entry of the name, when the entry has one, and the word "undefined"
    for a name that has no entry and that [Object.prototype] does not have
    either. *)
Definition text_for (params : gmap string jsval) (name : string)
    : option string :=
  match params !! name with
  | Some v =>
      match ToString v with
      | Returns text => Some text
      | Throws _ => None
      end
  | None => if own_name name then Some "undefined" else None
  end.

Fixpoint fill (params : gmap string jsval) (parts : list part) (tail : string)
    : string :=
  match parts with
  | [] => tail
  | p :: parts' =>
      lead p ++ default "" (text_for params (ident p))
      ++ fill params parts' tail
  end.

(** There is a text for the name of [p], and it brings neither an opening
    brace nor a [$] pattern of its own. *)
Definition inert (params : gmap string jsval) (p : part) : bool :=
  match text_for params (ident p) with
  | Some text => brace_free text && pattern_free text
  | None => false
  end.

(** The entry of the name of [p], when there is one, has a string form. *)
Definition convertible (params : gmap string jsval) (p : part) : bool :=
  match params !! ident p with
  | Some v =>
      match ToString v with
      | Returns _ => true
      | Throws _ => false
      end
  | None => true
  end.

(** A placeholder written with white space inside the braces. *)
Definition padded (p : part) : bool := negb (plain p).

(** [pat] occurs in [s]. *)
Definition includes (s pat : string) : bool :=
  match JsString.split_first pat s with
  | Some _ => true
  | None => false
  end.

Definition with_url (u : string) (params : gmap string jsval) : CustomRoute.t :=
  CustomRoute.new
    (Some {| CustomRoute.def_url := Some u; CustomRoute.def_type := None;
             CustomRoute.def_name := None |})
    (Some params).

End Template.

(** ** A configuration to run the model on *)

Module Sample.

Definition config (debug : bool) (afterRequest : jsval -> result unit)
    : Request.Config :=
  {| Request.allowedRequestTypes := ["get"; "post"; "put"; "patch"; "head"; "delete"];
     Request.debug := debug;
     Request.trailingSlash := false;
     Request.baseURL := "https://api.example.com";
     Request.beforeRequest_hook := fun _ _ => Returns tt;
     Request.afterRequest_hook := afterRequest;
     Request.onError_hook := fun _ => Returns tt |}.

Definition self (debug : bool) (afterRequest : jsval -> result unit)
    : Request.Self :=
  {| Request.config := config debug afterRequest;
     Request.customRoutes :=
       {[ "user" := {| CustomRoute.def_url := Some "/users/{id}";
                       CustomRoute.def_type := Some CustomRoute.GET;
                       CustomRoute.def_name := Some "user" |} ]};
     Request.isAllowedRequestType :=
       fun type c => bool_decide (type ∈ Request.allowedRequestTypes c);
     Request.sanitizeUrl := fun url _ => url;
     Request.parseRequestData :=
       fun _ data _ => [Lodash.get "params" data; Lodash.get "options" data];
     Request.makeUrl := fun parts => String.concat "/" (map toString parts) |}.

Definition returns (_ : jsval) : result unit := Returns tt.
Definition throws (_ : jsval) : result unit := Throws (JsError "hook failed").

Definition session : Request.Session :=
  {| Request.requestData :=
       [("data", JObject [("title", JString "draft")]);
        ("params", JObject [("page", JNum 2)]);
        ("options", JObject [])];
     Request.urlParams := Some [JString "users"; JNum 7] |}.

Definition failing (e : exn) : result unit := Throws (JsError "hook failed").

(** The same configuration with the three hooks given. *)
Definition self_with (debug : bool) (before : string -> string -> result unit)
    (after : jsval -> result unit) (onError : exn -> result unit)
    : Request.Self :=
  let base := self debug after in
  {| Request.config :=
       {| Request.allowedRequestTypes :=
            Request.allowedRequestTypes (Request.config base);
          Request.debug := debug;
          Request.trailingSlash := false;
          Request.baseURL := Request.baseURL (Request.config base);
          Request.beforeRequest_hook := before;
          Request.afterRequest_hook := after;
          Request.onError_hook := onError |};
     Request.customRoutes := Request.customRoutes base;
     Request.isAllowedRequestType := Request.isAllowedRequestType base;
     Request.sanitizeUrl := Request.sanitizeUrl base;
     Request.parseRequestData := Request.parseRequestData base;
     Request.makeUrl := Request.makeUrl base |}.

(** A session with nothing pending. *)
Definition idle : Request.Session :=
  {| Request.requestData := Request.requestData session;
     Request.urlParams := None |}.

End Sample.

(** * Properties *)

(** ** Strings *)

Section StringFacts.
Import JsString Template.

Lemma sapp_cons c a b : String c a ++ b = String c (a ++ b).
Proof. reflexivity. Qed.

Lemma sapp_nil_l a : "" ++ a = a.
Proof. reflexivity. Qed.

Lemma sapp_nil_r a : a ++ "" = a.
Proof. induction a as [|c a IH]; [reflexivity|]. by rewrite sapp_cons, IH. Qed.

Lemma sapp_assoc a b c : (a ++ b) ++ c = a ++ b ++ c.
Proof.
  induction a as [|x a IH]; [reflexivity|]. by rewrite !sapp_cons, IH.
Qed.

Lemma slength_app a b : String.length (a ++ b) = String.length a + String.length b.
Proof.
  induction a as [|x a IH]; [reflexivity|]. rewrite sapp_cons. simpl. by rewrite IH.
Qed.

Lemma sforall_app p a b : sforall p (a ++ b) = sforall p a && sforall p b.
Proof.
  induction a as [|x a IH]; [reflexivity|].
  rewrite sapp_cons. simpl. rewrite IH. by rewrite andb_assoc.
Qed.

Lemma sexists_app p a b : sexists p (a ++ b) = sexists p a || sexists p b.
Proof.
  induction a as [|x a IH]; [reflexivity|].
  rewrite sapp_cons. simpl. rewrite IH. by rewrite orb_assoc.
Qed.

(** The classes of the placeholder expression exclude one another. *)
Lemma space_not_name c : is_space c = true -> is_word_or_dot c = false.
Proof. destruct c as [[] [] [] [] [] [] [] []]; vm_compute; congruence. Qed.

Lemma name_not_space c : is_word_or_dot c = true -> is_space c = false.
Proof. destruct (is_space c) eqn:E; [|done]. rewrite (space_not_name _ E). done. Qed.

Lemma is_char_eq d c : is_char d c = true <-> c = d.
Proof. unfold is_char. apply Ascii.eqb_eq. Qed.

(** A run of [p] that ends where [p] stops is taken whole when the rest
    of the expression matches after it. *)
Lemma match_star_run p k a s b :
  sforall p a = true -> stops p s = true -> k s = Some b ->
  match_star p k (a ++ s) = Some (a ++ b).
Proof.
  intros Ha Hs Hk. induction a as [|c a IH].
  - rewrite !sapp_nil_l. destruct s as [|c s]; simpl; [done|].
    simpl in Hs. apply negb_true_iff in Hs. by rewrite Hs.
  - simpl in Ha. apply andb_true_iff in Ha as [Hc Ha].
    rewrite !sapp_cons. simpl. rewrite Hc, (IH Ha). done.
Qed.

(** Whatever a repetition matches is a run followed by a match of the
    rest. *)
Lemma match_star_inv p k s m :
  match_star p k s = Some m ->
  exists a s' b,
    s = a ++ s' /\ k s' = Some b /\ m = a ++ b /\ sforall p a = true.
Proof.
  revert m. induction s as [|c s IH]; intros m H; simpl in H.
  - exists "", "", m. done.
  - destruct (p c) eqn:Hc.
    + destruct (match_star p k s) as [m'|] eqn:E.
      * injection H as <-.
        destruct (IH _ eq_refl) as (a & s' & b & -> & Hk & -> & Ha).
        exists (String c a), s', b. cbn [sforall]. by rewrite Hc, Ha.
      * exists "", (String c s), m. done.
    + exists "", (String c s), m. done.
Qed.

Lemma match_end s : match_here [] s = Some "".
Proof. by destruct s. Qed.

Lemma match_here_once p r c s :
  match_here ((p, Once) :: r) (String c s)
  = if p c then String c <$> match_here r s else None.
Proof. reflexivity. Qed.

Lemma match_here_star p r s :
  match_here ((p, ZeroOrMore) :: r) s = match_star p (match_here r) s.
Proof. reflexivity. Qed.

Lemma match_here_plus p r c s :
  match_here ((p, OneOrMore) :: r) (String c s)
  = if p c then String c <$> match_star p (match_here r) s else None.
Proof. reflexivity. Qed.

End StringFacts.

(** ** Extraction of the placeholders *)

Section Extraction.
Import JsString Template.

Lemma name_head n :
  is_name n = true ->
  exists c n', n = String c n' /\ is_word_or_dot c = true
               /\ sforall is_word_or_dot n' = true.
Proof.
  unfold is_name. intros [Hne Hall]%andb_true_iff.
  destruct n as [|c n']; [done|].
  simpl in Hall. apply andb_true_iff in Hall as [Hc Hn'].
  by exists c, n'.
Qed.

Lemma stops_space_name n s : is_name n = true -> stops is_space (n ++ s) = true.
Proof.
  intros (c & n' & -> & Hc & _)%name_head. rewrite sapp_cons.
  cbn [stops]. by rewrite (name_not_space _ Hc).
Qed.

Lemma stops_name_pad w s :
  all_space w = true -> stops is_word_or_dot (w ++ String "}" s) = true.
Proof.
  destruct w as [|c w]; [done|]. unfold all_space.
  cbn [sforall]. intros [Hc _]%andb_true_iff. rewrite sapp_cons.
  cbn [stops]. by rewrite (space_not_name _ Hc).
Qed.

(** At a well-formed placeholder the expression matches the placeholder,
    braces and padding included. *)
Lemma match_here_token p rest :
  token_ok p = true ->
  match_here placeholder_re (token p ++ rest) = Some (token p).
Proof.
  unfold token_ok.
  intros [[Hl Hn]%andb_true_iff Hr]%andb_true_iff.
  destruct (name_head _ Hn) as (c & n' & En & Hc & Hn').
  unfold token, placeholder_re.
  rewrite !sapp_assoc. rewrite (sapp_cons "{" "" _), sapp_nil_l.
  rewrite (sapp_cons "{" "" _), sapp_nil_l.
  rewrite match_here_once. unfold is_char at 1. rewrite Ascii.eqb_refl.
  rewrite match_here_star.
  erewrite (match_star_run is_space _ (pad_left p)); [reflexivity|done| |].
  { by apply stops_space_name. }
  rewrite En, !sapp_cons. rewrite match_here_plus, Hc.
  erewrite (match_star_run is_word_or_dot _ n'); [reflexivity|done| |].
  { by apply stops_name_pad. }
  rewrite match_here_star.
  erewrite (match_star_run is_space _ (pad_right p)); [reflexivity|done|done|].
  rewrite match_here_once. unfold is_char. rewrite Ascii.eqb_refl.
  by rewrite match_end.
Qed.

(** Where there is no opening brace there is no match. *)
Lemma match_here_no_brace c s :
  is_char "{" c = false -> match_here placeholder_re (String c s) = None.
Proof. intros H. unfold placeholder_re. cbn [match_here]. by rewrite H. Qed.

Lemma match_all_skip r a s :
  match_all_from r (String.length a) (a ++ s) = match_all_from r 0 s.
Proof.
  induction a as [|c a IH]; [done|]. rewrite sapp_cons. simpl. apply IH.
Qed.

Lemma match_all_literal a s :
  brace_free a = true ->
  match_all_from placeholder_re 0 (a ++ s) = match_all_from placeholder_re 0 s.
Proof.
  unfold brace_free. induction a as [|c a IH]; [done|].
  cbn [sforall]. intros [Hc Ha]%andb_true_iff. apply negb_true_iff in Hc.
  rewrite sapp_cons. cbn [match_all_from].
  rewrite (match_here_no_brace _ _ Hc). by apply IH.
Qed.

Lemma match_all_brace_free a :
  brace_free a = true -> match_all_from placeholder_re 0 a = [].
Proof.
  intros H. rewrite <- (sapp_nil_r a). by rewrite match_all_literal.
Qed.

Lemma match_all_token p s :
  token_ok p = true ->
  match_all_from placeholder_re 0 (token p ++ s)
  = token p :: match_all_from placeholder_re 0 s.
Proof.
  intros Hp. pose proof (match_here_token p s Hp) as Hm.
  assert (exists t, token p = String "{" t) as [t Et] by (by eexists).
  rewrite Et in *. rewrite sapp_cons in *.
  cbn [match_all_from]. rewrite Hm. f_equal. simpl. apply match_all_skip.
Qed.

(** The matches of a template given by its parts are its placeholders,
    in order. *)
Lemma match_all_render parts tail :
  forallb well_formed parts = true -> brace_free tail = true ->
  match_all_from placeholder_re 0 (render parts tail) = map token parts.
Proof.
  intros Hps Ht. induction parts as [|p parts IH]; simpl.
  - by apply match_all_brace_free.
  - simpl in Hps. apply andb_true_iff in Hps as [Hp Hps].
    unfold well_formed in Hp. apply andb_true_iff in Hp as [Hl Hp].
    rewrite match_all_literal by done.
    rewrite match_all_token by done. by rewrite IH.
Qed.

Lemma match_first_skip a s :
  sforall (fun c => negb (is_word_or_dot c)) a = true ->
  match_first name_re (a ++ s) = match_first name_re s.
Proof.
  induction a as [|c a IH]; [done|]. cbn [sforall].
  intros [Hc Ha]%andb_true_iff. apply negb_true_iff in Hc.
  rewrite sapp_cons. cbn [match_first]. unfold name_re at 1.
  rewrite match_here_plus, Hc. by apply IH.
Qed.

Lemma match_first_name n s :
  is_name n = true -> stops is_word_or_dot s = true ->
  match_first name_re (n ++ s) = Some n.
Proof.
  intros (c & n' & -> & Hc & Hn')%name_head Hs.
  rewrite sapp_cons. cbn [match_first]. unfold name_re.
  rewrite match_here_plus, Hc.
  erewrite (match_star_run is_word_or_dot _ n'); [|done|done|apply match_end].
  by rewrite sapp_nil_r.
Qed.

Lemma space_run_no_name w :
  all_space w = true -> sforall (fun c => negb (is_word_or_dot c)) w = true.
Proof.
  unfold all_space. induction w as [|c w IH]; [done|]. simpl.
  intros [Hc Hw]%andb_true_iff. by rewrite (space_not_name _ Hc), IH.
Qed.

(** The name taken out of a placeholder is its name, without the padding. *)
Lemma first_name_token p :
  token_ok p = true -> CustomRoute.first_name (token p) = Returns (ident p).
Proof.
  unfold token_ok.
  intros [[Hl Hn]%andb_true_iff Hr]%andb_true_iff.
  unfold CustomRoute.first_name, token.
  rewrite (match_first_skip "{") by done.
  rewrite (match_first_skip (pad_left p)) by (by apply space_run_no_name).
  rewrite match_first_name; [done|done|]. by apply stops_name_pad.
Qed.

Lemma rmap_first_name parts :
  forallb well_formed parts = true ->
  rmap CustomRoute.first_name (map token parts) = Returns (map ident parts).
Proof.
  induction parts as [|p parts IH]; [done|]. simpl.
  intros [[_ Hp]%andb_true_iff Hps]%andb_true_iff.
  by rewrite (first_name_token _ Hp), (IH Hps).
Qed.

Lemma urlParams_render parts tail params :
  forallb well_formed parts = true -> brace_free tail = true ->
  CustomRoute.urlParams (with_url (render parts tail) params)
  = Returns (map ident parts).
Proof.
  intros Hps Ht. unfold CustomRoute.urlParams, match_global.
  change (CustomRoute.rawURL (with_url (render parts tail) params))
    with (render parts tail).
  rewrite (match_all_render _ _ Hps Ht).
  destruct parts as [|p parts]; [done|].
  by rewrite <- (rmap_first_name (p :: parts) Hps).
Qed.

End Extraction.

(** ** Extraction never fails *)

Section Totality.
Import JsString Template.

Lemma match_star_total p k s :
  (forall s', is_Some (k s')) -> is_Some (match_star p k s).
Proof.
  intros Hk. induction s as [|c s IH]; simpl; [apply Hk|].
  destruct (p c); [|apply Hk].
  destruct IH as [m ->]. by eexists.
Qed.

(** A text with a name character in it has a first name. *)
Lemma match_first_exists m :
  sexists is_word_or_dot m = true -> is_Some (match_first name_re m).
Proof.
  induction m as [|c m IH]; [done|]. cbn [sexists match_first].
  unfold name_re at 1. rewrite match_here_plus.
  destruct (is_word_or_dot c) eqn:Hc.
  - intros _.
    destruct (match_star_total is_word_or_dot (match_here []) m) as [x ->].
    { intros s'. rewrite match_end. by eexists. }
    by eexists.
  - simpl. apply IH.
Qed.

(** Every match of the placeholder expression has a name character. *)
Lemma match_here_has_name s m :
  match_here placeholder_re s = Some m -> sexists is_word_or_dot m = true.
Proof.
  unfold placeholder_re. destruct s as [|c s]; [done|].
  rewrite match_here_once. destruct (is_char "{" c); [|done].
  rewrite match_here_star.
  destruct (match_star _ _ s) as [m1|] eqn:E; [|done].
  intros [= <-]. apply match_star_inv in E as (a & s' & b & _ & Hb & -> & _).
  destruct s' as [|c' s']; [done|]. rewrite match_here_plus in Hb.
  destruct (is_word_or_dot c') eqn:Hc'; [|done].
  destruct (match_star _ _ s') as [m2|]; [|done].
  injection Hb as <-. cbn [sexists]. rewrite sexists_app. cbn [sexists].
  rewrite Hc'. by rewrite !orb_true_r.
Qed.

Lemma match_all_from_matches r k s :
  Forall (fun m => exists s', match_here r s' = Some m) (match_all_from r k s).
Proof.
  revert k. induction s as [|c s IH]; intros k.
  - destruct k; cbn [match_all_from]; [|done].
    destruct (match_here r "") as [m|] eqn:E; [|done].
    constructor; [by eexists|done].
  - destruct k; cbn [match_all_from]; [|apply IH].
    destruct (match_here r (String c s)) as [m|] eqn:E; [|apply IH].
    constructor; [by eexists|apply IH].
Qed.

Lemma rmap_total {A B} (f : A -> result B) l :
  Forall (fun x => exists y, f x = Returns y) l ->
  exists ys, rmap f l = Returns ys.
Proof.
  induction 1 as [|x l [y Hy] _ [ys Hys]]; [by eexists|].
  simpl. rewrite Hy, Hys. by eexists.
Qed.

Lemma first_name_total x :
  (exists s', match_here placeholder_re s' = Some x) ->
  exists y, CustomRoute.first_name x = Returns y.
Proof.
  intros [s' H%match_here_has_name]. unfold CustomRoute.first_name.
  destruct (match_first_exists _ H) as [n ->]. by eexists.
Qed.

(** The getter [urlParams] returns for every route: the name it looks for
    in a match is always there. *)
Lemma urlParams_total c : exists ps, CustomRoute.urlParams c = Returns ps.
Proof.
  unfold CustomRoute.urlParams, match_global.
  pose proof (match_all_from_matches placeholder_re 0 (CustomRoute.rawURL c)) as H.
  destruct (match_all_from _ _ _) as [|m ms]; [by eexists|].
  apply rmap_total. eapply Forall_impl; [exact H|].
  intros x Hx. by apply first_name_total.
Qed.

End Totality.

(** ** The placeholders of an arbitrary template *)

Section Placeholders.
Import JsString Template.

(** A match of the placeholder expression is a placeholder at the head of
    the text. *)
Lemma match_here_inv s m :
  match_here placeholder_re s = Some m ->
  exists p rest, token_ok p = true /\ m = token p /\ s = token p ++ rest.
Proof.
  unfold placeholder_re. destruct s as [|c s]; [done|].
  rewrite match_here_once. destruct (is_char "{" c) eqn:Hc; [|done].
  apply is_char_eq in Hc as ->. rewrite match_here_star.
  destruct (match_star _ _ s) as [m1|] eqn:E1; [|done]. intros [= <-].
  apply match_star_inv in E1 as (a1 & s1 & b1 & -> & H1 & -> & Ha1).
  destruct s1 as [|c1 s1]; [done|]. rewrite match_here_plus in H1.
  destruct (is_word_or_dot c1) eqn:Hc1; [|done].
  destruct (match_star _ _ s1) as [m2|] eqn:E2; [|done]. injection H1 as <-.
  apply match_star_inv in E2 as (a2 & s2 & b2 & -> & H2 & -> & Ha2).
  rewrite match_here_star in H2.
  apply match_star_inv in H2 as (a3 & s3 & b3 & -> & H3 & -> & Ha3).
  destruct s3 as [|c3 s3]; [done|]. rewrite match_here_once in H3.
  destruct (is_char "}" c3) eqn:Hc3; [|done]. apply is_char_eq in Hc3 as ->.
  rewrite match_end in H3. injection H3 as <-.
  exists {| lead := ""; pad_left := a1; ident := String c1 a2; pad_right := a3 |}, s3.
  split.
  - unfold token_ok, is_name, all_space. cbn [pad_left ident pad_right sforall].
    by rewrite Ha1, Hc1, Ha2, Ha3.
  - unfold token. cbn [pad_left ident pad_right].
    split; repeat first [rewrite sapp_cons|rewrite sapp_nil_l|rewrite sapp_assoc];
      reflexivity.
Qed.

Lemma match_here_none s :
  match_here placeholder_re s = None -> ~ opens_with_placeholder s.
Proof.
  intros H (p & rest & Hp & ->). by rewrite match_here_token in H.
Qed.

Lemma match_here_opens s m :
  match_here placeholder_re s = Some m -> opens_with_placeholder s.
Proof.
  intros (p & rest & Hp & _ & ->)%match_here_inv. by exists p, rest.
Qed.

Lemma quiet_nil rest : quiet "" rest.
Proof. intros [|x a] [|y b] Hab Hb; done. Qed.

Lemma quiet_cons c text rest :
  ~ opens_with_placeholder (String c text ++ rest) -> quiet text rest ->
  quiet (String c text) rest.
Proof.
  intros Hn Hq [|x a] b Hab Hb.
  - rewrite sapp_nil_l in Hab. by subst b.
  - rewrite sapp_cons in Hab. injection Hab as -> ->. by eapply Hq.
Qed.

Lemma quiet_inv c text rest :
  quiet (String c text) rest ->
  ~ opens_with_placeholder (String c text ++ rest) /\ quiet text rest.
Proof.
  intros Hq. split.
  - by apply (Hq "" (String c text)).
  - intros a b -> Hb. by apply (Hq (String c a) b).
Qed.

(** A text without opening brace is quiet, whatever follows. *)
Lemma brace_free_quiet text rest : brace_free text = true -> quiet text rest.
Proof.
  unfold brace_free. induction text as [|c text IH]; [intros; apply quiet_nil|].
  cbn [sforall]. intros [Hc Ht]%andb_true_iff. apply negb_true_iff in Hc.
  apply quiet_cons; [|by apply IH].
  intros (p & r & _ & E). unfold token in E. rewrite !sapp_cons in E.
  injection E as -> _. by rewrite (proj2 (is_char_eq _ _) eq_refl) in Hc.
Qed.

(** Either no placeholder opens in the text, or there is a first one. *)
Lemma first_placeholder s :
  quiet s ""
  \/ exists text p rest,
       s = text ++ token p ++ rest /\ token_ok p = true
       /\ quiet text (token p ++ rest).
Proof.
  induction s as [|c s IH]; [left; apply quiet_nil|].
  destruct (match_here placeholder_re (String c s)) as [m|] eqn:E.
  - right. apply match_here_inv in E as (p & rest & Hp & _ & E).
    exists "", p, rest. rewrite sapp_nil_l. split; [done|]. split; [done|].
    apply quiet_nil.
  - apply match_here_none in E.
    destruct IH as [Hq|(text & p & rest & -> & Hp & Hq)].
    + left. apply quiet_cons; [by rewrite sapp_nil_r|done].
    + right. exists (String c text), p, rest. split; [done|]. split; [done|].
      by apply quiet_cons.
Qed.

Lemma token_length p : 0 < String.length (token p).
Proof. unfold token. rewrite sapp_cons. simpl. lia. Qed.

(** Every template has its sequence of placeholders. *)
Lemma placeholders_total s : exists names, placeholders s names.
Proof.
  remember (String.length s) as n eqn:En. revert s En.
  induction n as [n IH] using (well_founded_induction lt_wf). intros s ->.
  destruct (first_placeholder s) as [Hq|(text & p & rest & -> & Hp & Hq)].
  - exists []. by constructor.
  - destruct (IH (String.length rest)) with (s := rest) as [names Hn]; [|done|].
    + rewrite !slength_app. pose proof (token_length p). lia.
    + exists (ident p :: names). by constructor.
Qed.

Lemma match_all_quiet text rest :
  quiet text rest ->
  match_all_from placeholder_re 0 (text ++ rest)
  = match_all_from placeholder_re 0 rest.
Proof.
  induction text as [|c text IH]; [done|].
  intros [Hn Hq]%quiet_inv. rewrite sapp_cons in *. cbn [match_all_from].
  destruct (match_here placeholder_re (String c (text ++ rest))) as [m|] eqn:E.
  - by apply match_here_opens in E.
  - by apply IH.
Qed.

Lemma placeholders_matches s names :
  placeholders s names ->
  rmap CustomRoute.first_name (match_all_from placeholder_re 0 s) = Returns names.
Proof.
  induction 1 as [s Hq|text p rest names Hp Hq _ IH].
  - apply match_all_quiet in Hq. rewrite sapp_nil_r in Hq. by rewrite Hq.
  - rewrite match_all_quiet by done. rewrite match_all_token by done.
    cbn [rmap]. by rewrite first_name_token, IH.
Qed.

(** The getter returns the placeholders of the template. *)
Lemma placeholders_extracted s names params :
  placeholders s names ->
  CustomRoute.urlParams (with_url s params) = Returns names.
Proof.
  intros H%placeholders_matches. unfold CustomRoute.urlParams, match_global.
  change (CustomRoute.rawURL (with_url s params)) with s.
  by destruct (match_all_from placeholder_re 0 s).
Qed.

End Placeholders.

(** ** Resolution *)

Section Resolution.
Import JsString Template.

Lemma strip_prefix_app pat s : strip_prefix pat (pat ++ s) = Some s.
Proof.
  induction pat as [|c pat IH]; [done|].
  rewrite sapp_cons. cbn [strip_prefix]. by rewrite Ascii.eqb_refl.
Qed.

(** The first occurrence of a pattern that opens with a brace is not in
    a text without braces. *)
Lemma split_first_literal a pat s :
  brace_free a = true ->
  split_first (String "{" pat) (a ++ String "{" pat ++ s) = Some (a, s).
Proof.
  unfold brace_free. induction a as [|c a IH].
  - intros _. rewrite sapp_nil_l.
    destruct (String "{" pat ++ s) as [|x y] eqn:E; [done|].
    cbn [split_first]. rewrite <- E. by rewrite strip_prefix_app.
  - cbn [sforall]. intros [Hc Ha]%andb_true_iff.
    apply negb_true_iff in Hc. unfold is_char in Hc.
    rewrite sapp_cons. cbn [split_first strip_prefix].
    rewrite Ascii.eqb_sym, Hc. by rewrite (IH Ha).
Qed.

Lemma getSubstitution_plain m pre post t :
  dollar_free t = true -> getSubstitution m pre post t = t.
Proof.
  unfold dollar_free. induction t as [|c t IH]; [done|].
  cbn [sforall getSubstitution]. intros [Hc Ht]%andb_true_iff.
  apply negb_true_iff in Hc. unfold is_char in Hc. rewrite Hc.
  by rewrite (IH Ht).
Qed.

Lemma getSubstitution_pattern_free m pre post t :
  pattern_free t = true -> getSubstitution m pre post t = t.
Proof.
  induction t as [|c t IH]; [done|].
  cbn [pattern_free getSubstitution]. intros [Hc Ht]%andb_true_iff.
  destruct (Ascii.eqb c "$") eqn:E; [|by rewrite (IH Ht)].
  destruct t as [|d t']; [done|].
  apply negb_true_iff in Hc.
  apply orb_false_iff in Hc as [Hc H4]. apply orb_false_iff in Hc as [Hc H3].
  apply orb_false_iff in Hc as [H1 H2].
  rewrite H1, H2, H3, H4. by rewrite (IH Ht).
Qed.

(** A value that has a string form replaces the placeholder that follows a
    text without braces. *)
Lemma replace_value a n v text s :
  brace_free a = true -> ToString v = Returns text ->
  replace (a ++ ("{" ++ n ++ "}") ++ s) ("{" ++ n ++ "}") (Value v)
  = Returns (a ++ getSubstitution ("{" ++ n ++ "}") a s text ++ s).
Proof.
  intros Ha Hv. unfold replace. rewrite Hv. cbn [rbind].
  rewrite (sapp_cons "{" "" _), sapp_nil_l.
  by rewrite (split_first_literal a (n ++ "}") s Ha).
Qed.

Lemma lookup_own_name n :
  own_name n = true -> ObjectPrototype.lookup n = None.
Proof.
  unfold own_name. intros H%negb_true_iff%bool_decide_eq_false.
  unfold inherited_names in H.
  repeat (apply not_elem_of_cons in H as [? H]).
  unfold ObjectPrototype.lookup, ObjectPrototype.members. cbn [find fst].
  repeat (match goal with
          | |- context [String.eqb ?a n] =>
              destruct (String.eqb_spec a n); [congruence|]
          end).
  done.
Qed.

Lemma param_value_text c n text :
  text_for (CustomRoute.routeParams c) n = Some text ->
  exists v, CustomRoute.param_value c n = Value v /\ ToString v = Returns text.
Proof.
  unfold CustomRoute.param_value, text_for.
  destruct (CustomRoute.routeParams c !! n) as [v|].
  - destruct (ToString v) as [t|] eqn:E; [|done].
    intros [= <-]. by exists v.
  - destruct (own_name n) eqn:E; [|done].
    intros [= <-]. rewrite (lookup_own_name _ E). by exists JUndefined.
Qed.

(** One replacement per placeholder, left to right: what is already
    resolved has no brace, so each replacement finds its own
    placeholder. *)
Lemma fold_replace c parts tail resolved :
  forallb well_formed parts = true -> forallb plain parts = true ->
  forallb (inert (CustomRoute.routeParams c)) parts = true ->
  brace_free resolved = true ->
  fold_left (CustomRoute.replaceURLParam c) (map ident parts)
    (Returns (resolved ++ render parts tail))
  = Returns (resolved ++ fill (CustomRoute.routeParams c) parts tail).
Proof.
  revert resolved. induction parts as [|p parts IH]; intros resolved; [done|].
  cbn [forallb map fold_left render fill].
  intros [Hp Hps]%andb_true_iff [Hq Hqs]%andb_true_iff
         [Hi His]%andb_true_iff Hres.
  unfold plain in Hq. apply andb_true_iff in Hq as [Hl%String.eqb_eq Hr%String.eqb_eq].
  unfold inert in Hi.
  destruct (text_for (CustomRoute.routeParams c) (ident p)) as [text|] eqn:Et;
    [|done].
  apply andb_true_iff in Hi as [Hb Hd].
  destruct (param_value_text _ _ _ Et) as (v & Ev & Hv).
  assert (brace_free (lead p) = true) as Hlead.
  { unfold well_formed in Hp. by apply andb_true_iff in Hp as [Hp _]. }
  unfold token. rewrite Hl, Hr, sapp_nil_l.
  rewrite <- (sapp_assoc resolved (lead p)).
  change ("{" ++ ident p ++ "" ++ "}") with ("{" ++ ident p ++ "}").
  unfold CustomRoute.replaceURLParam at 2. cbn [rbind]. rewrite Ev.
  rewrite (replace_value _ _ _ text).
  - rewrite getSubstitution_pattern_free by done.
    rewrite <- (sapp_assoc _ text).
    rewrite IH; [|done..|].
    + cbn [default from_option id]. by rewrite !sapp_assoc.
    + unfold brace_free in *. rewrite !sforall_app, Hres, Hlead. exact Hb.
  - unfold brace_free in *. by rewrite sforall_app, Hres, Hlead.
  - exact Hv.
Qed.

End Resolution.

(** ** Route templates and route lookup *)

Section RouteProperties.
Import JsString Template.

(** C7. For every template string, extraction returns the names of its
    placeholders (word characters and dots inside braces, white space
    around the name left out) in the order in which they appear, one entry
    for each occurrence of a placeholder, so that a name that comes twice
    is listed twice, and the empty sequence for a template without
    placeholders; "/users/{id}/posts/{postId}" gives ["id"; "postId"]. *)
Theorem urlParams_names_in_order :
  (forall s, exists names, placeholders s names)
  /\ (forall s names params,
        placeholders s names ->
        CustomRoute.urlParams (with_url s params) = Returns names)
  /\ CustomRoute.urlParams (with_url "/users/{id}/posts/{postId}" ∅)
     = Returns ["id"; "postId"]
  /\ CustomRoute.urlParams (with_url "/users/{id}/friends/{ id }" ∅)
     = Returns ["id"; "id"]
  /\ CustomRoute.urlParams (with_url "/users" ∅) = Returns [].
Proof.
  split; [exact placeholders_total|].
  split; [exact placeholders_extracted|].
  repeat split.
Qed.

Lemma urlParams_names_in_order_witness :
  placeholders "/users/{id}/posts/{postId}" ["id"; "postId"]
  /\ CustomRoute.urlParams (with_url "/users/{id}/posts/{postId}" ∅)
     = Returns ["id"; "postId"].
Proof.
  assert (placeholders "/users/{id}/posts/{postId}" ["id"; "postId"]) as H.
  { apply (placeholders_next "/users/"
             {| lead := ""; pad_left := ""; ident := "id"; pad_right := "" |}
             "/posts/{postId}" ["postId"]);
      [reflexivity|apply brace_free_quiet; reflexivity|].
    apply (placeholders_next "/posts/"
             {| lead := ""; pad_left := ""; ident := "postId"; pad_right := "" |}
             "" []);
      [reflexivity|apply brace_free_quiet; reflexivity|].
    apply placeholders_none, quiet_nil. }
  split; [exact H|].
  exact (proj1 (proj2 urlParams_names_in_order) _ _ ∅ H).
Defined.

(** C8. Resolving a template with an empty route-params map returns the
    template unchanged, whatever the template: "/users/{id}" stays
    "/users/{id}". *)
Theorem replaceURLParams_empty_params :
  (forall r : CustomRoute.Route,
      CustomRoute.url {| CustomRoute.route := r; CustomRoute.routeParams := ∅ |}
      = Returns (CustomRoute.route_url r))
  /\ (forall T, CustomRoute.url (with_url T ∅) = Returns T)
  /\ CustomRoute.url (with_url "/users/{id}" ∅) = Returns "/users/{id}".
Proof.
  assert (forall r : CustomRoute.Route,
      CustomRoute.url {| CustomRoute.route := r; CustomRoute.routeParams := ∅ |}
      = Returns (CustomRoute.route_url r)) as H.
  2: { split; [exact H|]. split; [intros T; apply H|apply H]. }
  intros r. unfold CustomRoute.url, CustomRoute.replaceURLParams.
  destruct (urlParams_total {| CustomRoute.route := r;
                               CustomRoute.routeParams := ∅ |}) as [ps ->].
  cbn [rbind CustomRoute.routeParams]. rewrite map_size_empty.
  by rewrite andb_false_r.
Qed.

(** C1, as stated, fails: with the non-empty map [{other: "x"}]
    the placeholder [{id}] of ["/users/{id}"], whose name is not a key of
    the map, does not stay in the output. *)
Lemma missing_param_not_left_literal :
  let params : gmap string jsval := {[ "other" := JString "x" ]} in
  let c := with_url "/users/{id}" params in
  size params <> 0
  /\ CustomRoute.urlParams c = Returns ["id"]
  /\ params !! "id" = None
  /\ CustomRoute.url c = Returns "/users/undefined"
  /\ includes "/users/undefined" "{id}" = false.
Proof. vm_compute. repeat split; congruence. Qed.

(** C1, amended. For a template made of literal text without opening
    braces and of placeholders [{name}] (no white space inside the braces),
    and a non-empty route-params map, resolution raises no error and puts,
    for every placeholder, the string form of the entry of its name, and
    the text "undefined" for a name that is not a key of the map (the
    placeholder does not stay); this for entries that have a string form
    with no opening brace and no [$] pattern in it, and for absent names
    that [Object.prototype] does not have either. *)
Theorem replaceURLParams_fills_placeholders parts tail params :
  forallb well_formed parts = true -> forallb plain parts = true ->
  forallb (inert params) parts = true -> brace_free tail = true ->
  size params <> 0 ->
  CustomRoute.url (with_url (render parts tail) params)
  = Returns (fill params parts tail).
Proof.
  intros Hw Hp Hi Ht Hn.
  unfold CustomRoute.url, CustomRoute.replaceURLParams.
  rewrite (urlParams_render _ _ _ Hw Ht). cbn [rbind].
  destruct parts as [|p parts]; [done|].
  apply Nat.eqb_neq in Hn.
  change (CustomRoute.routeParams (with_url (render (p :: parts) tail) params))
    with params.
  rewrite Hn. cbn [length Nat.eqb negb andb].
  f_equal.
  pose proof (fold_replace (with_url (render (p :: parts) tail) params)
                (p :: parts) tail "" Hw Hp Hi eq_refl) as H.
  by rewrite !sapp_nil_l in H.
Qed.

Lemma replaceURLParams_fills_placeholders_witness :
  let parts := [ {| lead := "/users/"; pad_left := ""; ident := "id";
                    pad_right := "" |};
                 {| lead := "/posts/"; pad_left := ""; ident := "postId";
                    pad_right := "" |};
                 {| lead := "/"; pad_left := ""; ident := "price";
                    pad_right := "" |} ] in
  let params : gmap string jsval :=
    {[ "postId" := JNum 7; "price" := JString "5$" ]} in
  render parts "/x" = "/users/{id}/posts/{postId}/{price}/x"
  /\ fill params parts "/x" = "/users/undefined/posts/7/5$/x"
  /\ CustomRoute.url (with_url (render parts "/x") params)
     = Returns (fill params parts "/x").
Proof.
  intros parts params. split; [reflexivity|]. split; [reflexivity|].
  apply (replaceURLParams_fills_placeholders parts "/x" params);
    [reflexivity..|].
  vm_compute. congruence.
Defined.

(** C5. For a name that the route table does not have, [getCustomRoute]
    raises nothing and returns the route of the empty definition: its url
    is the empty string, its type GET, its name the empty string. *)
Theorem getCustomRoute_unknown_name self name routeParams :
  Request.customRoutes self !! name = None ->
  let r := Request.getCustomRoute self name routeParams in
  CustomRoute.url r = Returns ""
  /\ CustomRoute.type r = "GET"
  /\ CustomRoute.name r = "".
Proof.
  intros H r. subst r. unfold Request.getCustomRoute. rewrite H.
  repeat split.
Qed.

Lemma getCustomRoute_unknown_name_witness :
  let self := Sample.self false Sample.returns in
  Request.customRoutes self !! "missingName" = None
  /\ CustomRoute.url (Request.getCustomRoute self "missingName" ∅) = Returns ""
  /\ CustomRoute.type (Request.getCustomRoute self "missingName" ∅) = "GET"
  /\ CustomRoute.name (Request.getCustomRoute self "missingName" ∅) = "".
Proof.
  intros self. split; [reflexivity|].
  apply (getCustomRoute_unknown_name self "missingName" ∅). reflexivity.
Defined.

End RouteProperties.

(** ** Merging defaults *)

Section LodashFacts.
Import Lodash.

Lemma get_set_eq k v o : get k (set k v o) = v.
Proof.
  induction o as [|[k' v'] o IH]; cbn [set get].
  - by rewrite String.eqb_refl.
  - destruct (String.eqb k' k) eqn:E; cbn [get]; by rewrite E.
Qed.

Lemma get_set_ne k k' v o : k <> k' -> get k (set k' v o) = get k o.
Proof.
  intros Hne. induction o as [|[k0 v0] o IH]; cbn [set get].
  - apply not_eq_sym, String.eqb_neq in Hne. by rewrite Hne.
  - destruct (String.eqb k0 k') eqn:E; cbn [get].
    + apply String.eqb_eq in E as ->.
      apply not_eq_sym, String.eqb_neq in Hne. by rewrite Hne.
    + by rewrite IH.
Qed.

Lemma keys_set k v o :
  keys (set k v o) = if bool_decide (k ∈ keys o) then keys o else (keys o ++ [k])%list.
Proof.
  unfold keys. induction o as [|[k' v'] o IH]; cbn [set map fst]; [done|].
  destruct (String.eqb k' k) eqn:E.
  - apply String.eqb_eq in E as ->. cbn [map fst].
    rewrite bool_decide_eq_true_2; [done|]. by left.
  - apply String.eqb_neq in E. cbn [map fst]. rewrite IH.
    destruct (bool_decide (k ∈ map fst o)) eqn:D.
    + apply bool_decide_eq_true in D.
      rewrite bool_decide_eq_true_2; [done|]. by right.
    + apply bool_decide_eq_false in D.
      rewrite bool_decide_eq_false_2; [done|].
      intros [?|?]%elem_of_cons; congruence.
Qed.

Lemma NoDup_keys_set k v o : NoDup (keys o) -> NoDup (keys (set k v o)).
Proof.
  intros H. rewrite keys_set. case_bool_decide; [done|].
  apply NoDup_app. split; [done|]. split; [|apply NoDup_singleton].
  intros x Hx ->%list_elem_of_singleton. done.
Qed.

Lemma NoDup_keys_mergeWith f o src :
  NoDup (keys o) -> NoDup (keys (mergeWith f o src)).
Proof.
  revert o. induction src as [|[k v] src IH]; intros o H; [done|].
  cbn [mergeWith]. by apply IH, NoDup_keys_set.
Qed.

Lemma customDefaultsMerge_leaf v sv :
  is_leaf v = true -> customDefaultsMerge v sv = v.
Proof. by destruct v, sv. Qed.

Lemma customDefaultsMerge_undefined sv : customDefaultsMerge JUndefined sv = sv.
Proof. by destruct sv. Qed.

(** A value that the destination has stays through the merge. *)
Lemma mergeWith_leaf k o src :
  is_leaf (get k o) = true ->
  get k (mergeWith customDefaultsMerge o src) = get k o.
Proof.
  revert o. induction src as [|[k' v] src IH]; intros o H; [done|].
  cbn [mergeWith]. destruct (decide (k = k')) as [<-|Hne].
  - rewrite IH; rewrite get_set_eq, customDefaultsMerge_leaf; done.
  - rewrite IH; rewrite get_set_ne; done.
Qed.

Lemma mergeWith_other f k o src :
  k ∉ keys src -> get k (mergeWith f o src) = get k o.
Proof.
  revert o. induction src as [|[k' v] src IH]; intros o H; [done|].
  cbn [mergeWith]. unfold keys in H. cbn [map fst] in H.
  apply not_elem_of_cons in H as [Hne H].
  rewrite IH by done. by rewrite get_set_ne.
Qed.

End LodashFacts.

Section LodashMerge.
Import Lodash.

Lemma customDefaultsMerge_objects o src :
  customDefaultsMerge (JObject o) (JObject src)
  = JObject (mergeWith customDefaultsMerge o src).
Proof.
  revert o. induction src as [|[k v] src IH]; intros o; [done|].
  cbn [mergeWith]. rewrite <- IH. reflexivity.
Qed.

Lemma customDefaultsMerge_no_default v : customDefaultsMerge v JUndefined = v.
Proof. by destruct v. Qed.

(** Property by property, the merge is the customizer applied to the
    destination's value and the default. *)
Lemma mergeWith_get k o src :
  NoDup (keys src) ->
  get k (mergeWith customDefaultsMerge o src)
  = customDefaultsMerge (get k o) (get k src).
Proof.
  revert o. induction src as [|[k' v] src IH]; intros o Hnd.
  - cbn [mergeWith get]. by rewrite customDefaultsMerge_no_default.
  - unfold keys in Hnd. cbn [map fst] in Hnd.
    apply NoDup_cons in Hnd as [Hk' Hnd].
    cbn [mergeWith get]. destruct (String.eqb k' k) eqn:E.
    + apply String.eqb_eq in E as ->.
      rewrite mergeWith_other by done. by rewrite get_set_eq.
    + apply String.eqb_neq in E. rewrite IH by done.
      by rewrite get_set_ne.
Qed.

End LodashMerge.

(** ** The session and the request lifecycle *)

Ltac run_M :=
  unfold mbind, Request.M_bind, mret, Request.M_ret, Request.bind, Request.ret,
    Request.emit, Request.read, Request.write, Request.lift, Request.throw,
    Request.catch, Request.result_of, Request.session_of, Request.events_of;
  cbn [fst snd].

Section SessionProperties.
Import Request.

(** C2, as stated, fails: after [withData({a:1})] and then
    [withData({a:2})] the accumulated value of [a] is 2, the value of the
    later call. *)
Lemma withData_later_call_wins :
  let run := bind (withData [("a", JNum 1)])
               (fun _ => withData [("a", JNum 2)]) Sample.session in
  result_of run = Returns tt
  /\ Lodash.get "a" (requestData (session_of run)) = JNum 2
  /\ Lodash.get "a" (requestData (session_of run)) <> JNum 1.
Proof. vm_compute. repeat split; congruence. Qed.

(** C2, amended. After [withData(d1)] and then [withData(d2)] the
    accumulated request data is the deep merge in which the incoming data
    takes precedence, for every key: a property that [d2] sets to a value
    that is not an object has the value of [d2]; a property that [d2]
    sets to an object where no object was accumulated is the object of
    [d2]; where both hold an object the two objects are merged by the same
    rule; and only a property that [d2] leaves undefined keeps what was
    accumulated. (The keys of [d1] are distinct, and no object at hand has
    a property named like a member of [Object.prototype].) *)
Theorem withData_incoming_takes_precedence d1 d2 s k :
  NoDup (Lodash.keys d1) -> own_name k = true ->
  Lodash.own_names (JObject d1) = true ->
  Lodash.own_names (JObject d2) = true ->
  Lodash.own_names (JObject (requestData s)) = true ->
  let s1 := session_of (withData d1 s) in
  let s2 := session_of (bind (withData d1) (fun _ => withData d2) s) in
  (Lodash.is_leaf (Lodash.get k d2) = true ->
     Lodash.get k (requestData s2) = Lodash.get k d2)
  /\ (forall incoming,
        Lodash.get k d2 = JObject incoming ->
        (forall accumulated,
            Lodash.get k (requestData s1) <> JObject accumulated) ->
        Lodash.get k (requestData s2) = JObject incoming)
  /\ (forall incoming accumulated,
        Lodash.get k d2 = JObject incoming ->
        Lodash.get k (requestData s1) = JObject accumulated ->
        Lodash.get k (requestData s2)
        = JObject (Lodash.defaultsDeep incoming accumulated))
  /\ (Lodash.get k d2 = JUndefined ->
        Lodash.get k (requestData s2) = Lodash.get k (requestData s1)).
Proof.
  intros Hnd _ _ _ _ s1 s2.
  assert (NoDup (Lodash.keys (requestData s1))) as Hnd1.
  { subst s1. unfold withData. run_M. cbn [requestData].
    by apply NoDup_keys_mergeWith. }
  assert (requestData s2 = Lodash.defaultsDeep d2 (requestData s1)) as ->.
  { subst s1 s2. unfold withData. run_M. reflexivity. }
  unfold Lodash.defaultsDeep at 1 2 3 4.
  repeat split.
  - intros Hl. by apply mergeWith_leaf.
  - intros incoming Hi Ha. rewrite mergeWith_get by done. rewrite Hi.
    destruct (Lodash.get k (requestData s1)) as [| | | | |accumulated];
      try reflexivity.
    by destruct (Ha accumulated).
  - intros incoming accumulated Hi Ha. rewrite mergeWith_get by done.
    by rewrite Hi, Ha, customDefaultsMerge_objects.
  - intros Hu. rewrite mergeWith_get by done.
    by rewrite Hu, customDefaultsMerge_undefined.
Qed.

Lemma withData_incoming_takes_precedence_witness :
  let d1 := [("a", JNum 1); ("b", JNum 5); ("params", JNum 5)] in
  let d2 := [("a", JNum 2); ("params", JObject [("page", JNum 1)])] in
  let s2 := session_of (bind (withData d1) (fun _ => withData d2) Sample.session) in
  NoDup (Lodash.keys d1)
  /\ own_name "params" = true
  /\ Lodash.own_names (JObject d1) = true
  /\ Lodash.own_names (JObject d2) = true
  /\ Lodash.own_names (JObject (requestData Sample.session)) = true
  /\ Lodash.get "params" (requestData s2) = JObject [("page", JNum 1)]
  /\ Lodash.get "a" (requestData s2) = JNum 2
  /\ Lodash.get "b" (requestData s2) = JNum 5.
Proof.
  intros d1 d2 s2.
  assert (NoDup (Lodash.keys d1)) as Hnd.
  { apply (bool_decide_unpack _). vm_compute. exact I. }
  split; [exact Hnd|]. do 4 (split; [reflexivity|]). split.
  - apply (proj1 (proj2 (withData_incoming_takes_precedence d1 d2
                           Sample.session "params" Hnd eq_refl eq_refl eq_refl
                           eq_refl)) [("page", JNum 1)]).
    + reflexivity.
    + intros accumulated. vm_compute. congruence.
  - split; reflexivity.
Defined.

(** C3. For a type whose lower-case form the allow-list check refuses,
    [request] throws at once: the result is an error and not a promise,
    nothing was called before (no [beforeRequest] hook, no transport, no
    fake request: the log is empty) and the session is as it was. *)
Theorem request_refuses_type self type url s :
  isAllowedRequestType self (JsString.toLowerCase type) (config self) = false ->
  request self type url s
  = (Throws (JsError "This request type is not allowed."), s, []).
Proof. intros H. unfold request. by rewrite H. Qed.

Lemma request_refuses_type_witness :
  isAllowedRequestType (Sample.self false Sample.returns)
    (JsString.toLowerCase "TRACE") (config (Sample.self false Sample.returns))
  = false
  /\ request (Sample.self false Sample.returns) "TRACE" "/users" Sample.session
     = (Throws (JsError "This request type is not allowed."), Sample.session, []).
Proof.
  split; [reflexivity|].
  apply (request_refuses_type (Sample.self false Sample.returns) "TRACE"
           "/users" Sample.session).
  reflexivity.
Defined.

End SessionProperties.

Section LifecycleProperties.
Import Request.

(** [request] itself leaves the session as it is. *)
Lemma request_session self type url s :
  session_of (request self type url s) = s.
Proof.
  unfold request, beforeRequest.
  destruct (isAllowedRequestType _ _ _); [|done]. run_M.
  destruct (beforeRequest_hook _ _ _); [|done].
  by destruct (debug _).
Qed.

(** C4, as stated, fails: when the transport's promise resolves
    and the [afterRequest] hook throws, the request completes (its promise
    is rejected) with the session reset twice, once in [afterRequest] and
    once more in [onError]. *)
Lemma reset_twice_when_after_hook_throws :
  let self := Sample.self false Sample.throws in
  let run := settle self (Pending "get" "/users" [])
               (Fulfilled (JString "ok")) Sample.session in
  events_of run
  = [ ResetRequestData; ResetURLParams; AfterRequestHook (JString "ok");
      ResetRequestData; ResetURLParams; OnErrorHook (JsError "hook failed");
      Reject (JsError "hook failed") ]
  /\ count is_reset_data (events_of run) = 2
  /\ count is_reset_url (events_of run) = 2.
Proof. vm_compute. repeat split. Qed.

(** C4, amended. For every request that is dispatched (its type allowed,
    the [beforeRequest] hook returning, not in debug mode), whichever way
    the transport's promise settles and whatever the other hooks do, once
    the reactions have run the session's [data], [params] and [options] are
    empty containers and the pending urlParams are cleared, reset inside
    [afterRequest] on the success path and inside [onError] on the failure
    path.  Over the attempt, from the call of [request] to the end of its
    reactions, the request data and the urlParams are each reset exactly
    once, but for two cases: [onError] resets both a second time when the
    [afterRequest] hook throws, and a verb method that finds pending
    urlParams has cleared them once already, in [buildRequest], before it
    calls [request]. *)
Theorem reset_on_every_outcome self type url supplied o s :
  isAllowedRequestType self (JsString.toLowerCase type) (config self) = true ->
  (forall u, beforeRequest_hook (config self) (JsString.toLowerCase type) u
             = Returns tt) ->
  debug (config self) = false ->
  let again := match o with
               | Fulfilled response =>
                   match afterRequest_hook (config self) response with
                   | Returns _ => 0
                   | Throws _ => 1
                   end
               | Rejected _ => 0
               end in
  let pending := match urlParams s with Some _ => 1 | None => 0 end in
  let cleared := [("data", JObject []); ("params", JObject []);
                  ("options", JObject [])] in
  let direct := bind (request self type url) (fun p => settle self p o) s in
  let built := bind (buildRequest self type supplied)
                 (fun p => settle self p o) s in
  (requestData (session_of direct) = cleared
   /\ urlParams (session_of direct) = None
   /\ count is_reset_data (events_of direct) = 1 + again
   /\ count is_reset_url (events_of direct) = 1 + again)
  /\ (requestData (session_of built) = cleared
      /\ urlParams (session_of built) = None
      /\ count is_reset_data (events_of built) = 1 + again
      /\ count is_reset_url (events_of built) = pending + 1 + again).
Proof.
  intros Hallowed Hbefore Hdebug again pending cleared direct built.
  subst again pending cleared direct built.
  unfold buildRequest, request, beforeRequest, settle, reactions,
    afterRequest, onError, resetRequestData, resetURLParams.
  rewrite Hallowed. cbn [negb]. split.
  - run_M. rewrite Hbefore, Hdebug.
    destruct o as [response|error]; cbn.
    + destruct (afterRequest_hook (config self) response); cbn.
      * repeat split.
      * destruct (onError_hook (config self) e); repeat split.
    + destruct (onError_hook (config self) error); repeat split.
  - run_M. destruct (urlParams s) as [waiting|]; cbn;
      rewrite Hbefore, Hdebug; cbn.
    all: destruct o as [response|error]; cbn.
    all: try (destruct (afterRequest_hook (config self) response); cbn).
    all: try (destruct (onError_hook (config self) _); cbn).
    all: repeat split.
Qed.

Lemma reset_on_every_outcome_witness :
  let self := Sample.self false Sample.throws in
  let built := bind (buildRequest self "get" [JString "posts"])
                 (fun p => settle self p (Fulfilled (JString "ok")))
                 Sample.session in
  isAllowedRequestType self (JsString.toLowerCase "get") (config self) = true
  /\ debug (config self) = false
  /\ requestData (session_of built)
     = [("data", JObject []); ("params", JObject []); ("options", JObject [])]
  /\ urlParams (session_of built) = None
  /\ count is_reset_data (events_of built) = 2
  /\ count is_reset_url (events_of built) = 3.
Proof.
  intros self built. split; [reflexivity|]. split; [reflexivity|].
  exact (proj2 (reset_on_every_outcome self "get" "" [JString "posts"]
                  (Fulfilled (JString "ok")) Sample.session
                  eq_refl (fun _ => eq_refl) eq_refl)).
Defined.


(** C9. A verb method called with positional arguments while the session
    holds pending urlParams builds the URL from the pending ones followed
    by the new ones, and clears the pending ones before anything of the
    request happens (the reset is first in the log); the session that the
    request leaves has none pending, so that the next request built has
    the URL of its own arguments alone. *)
Theorem verb_consumes_pending self requestType supplied pending s :
  requestType ∈ allowedRequestTypes (config self) ->
  urlParams s = Some pending ->
  let cleared := {| requestData := requestData s; urlParams := None |} in
  let url := makeUrl self (pending ++ supplied)%list in
  let run := verb self requestType supplied s in
  result_of run = result_of (request self requestType url cleared)
  /\ events_of run
     = ResetURLParams :: events_of (request self requestType url cleared)
  /\ session_of run = cleared
  /\ forall requestType' supplied',
       buildRequest self requestType' supplied' (session_of run)
       = request self requestType' (makeUrl self supplied') cleared.
Proof.
  intros Hin Hp cleared url run.
  pose proof (request_session self requestType url cleared) as Hs.
  assert (run = (result_of (request self requestType url cleared), cleared,
                 ResetURLParams :: events_of (request self requestType url cleared)))
    as ->.
  { subst run. unfold verb. rewrite bool_decide_eq_true_2 by done.
    unfold buildRequest, resetURLParams. run_M. rewrite Hp. run_M.
    fold cleared. fold url. revert Hs. run_M.
    destruct (request self requestType url cleared) as [[r s'] l].
    cbn [fst snd]. by intros ->. }
  run_M. repeat split.
  intros requestType' supplied'. unfold buildRequest. run_M.
  cbn [urlParams cleared]. run_M.
  by destruct (request self requestType' (makeUrl self supplied') cleared) as [[? ?] ?].
Qed.

Lemma verb_consumes_pending_witness :
  let self := Sample.self false Sample.returns in
  "get" ∈ allowedRequestTypes (config self)
  /\ urlParams Sample.session = Some [JString "users"; JNum 7]
  /\ events_of (verb self "get" [JString "posts"] Sample.session)
     = [ ResetURLParams; BeforeRequestHook "get" "users/7/posts";
         Transport "get" "users/7/posts"
           [JObject [("page", JNum 2)]; JObject []] ].
Proof.
  intros self.
  assert ("get" ∈ allowedRequestTypes (config self)) as Hin.
  { apply (bool_decide_unpack _). vm_compute. exact I. }
  split; [exact Hin|]. split; [reflexivity|].
  apply (verb_consumes_pending self "get" [JString "posts"]
           [JString "users"; JNum 7] Sample.session Hin eq_refl).
Defined.

(** C10. In debug mode [request], once the type is allowed and the
    [beforeRequest] hook has returned, returns the promise of
    [fakeRequest(type, url)] itself: the transport is not called, neither
    [afterRequest] nor [onError] runs, now or when that promise settles,
    and the session (data, params, options, pending urlParams) stays as
    it was. *)
Theorem request_debug_short_circuit self type url s :
  debug (config self) = true ->
  isAllowedRequestType self (JsString.toLowerCase type) (config self) = true ->
  beforeRequest_hook (config self) (JsString.toLowerCase type) url = Returns tt ->
  let type' := JsString.toLowerCase type in
  request self type url s
  = (Returns (FakePromise type' url), s,
     [BeforeRequestHook type' url; FakeRequest type' url])
  /\ forall o s', settle self (FakePromise type' url) o s' = (Returns tt, s', []).
Proof.
  intros Hd Ha Hh type'. subst type'. split; [|done].
  unfold request, beforeRequest. rewrite Ha. run_M.
  rewrite Hh, Hd. reflexivity.
Qed.

Lemma request_debug_short_circuit_witness :
  let self := Sample.self true Sample.returns in
  debug (config self) = true
  /\ request self "GET" "/users" Sample.session
     = (Returns (FakePromise "get" "/users"), Sample.session,
        [BeforeRequestHook "get" "/users"; FakeRequest "get" "/users"]).
Proof.
  intros self. split; [reflexivity|].
  apply (request_debug_short_circuit self "GET" "/users" Sample.session);
    reflexivity.
Defined.

End LifecycleProperties.

(** ** More on route templates *)

Section TemplateEdges.
Import JsString Template.

Lemma sforall_impl (p q : ascii -> bool) s :
  (forall c, p c = true -> q c = true) -> sforall p s = true ->
  sforall q s = true.
Proof.
  intros Hpq. induction s as [|c s IH]; [done|]. cbn [sforall].
  intros [Hc Hs]%andb_true_iff. by rewrite (Hpq _ Hc), IH.
Qed.

Lemma name_char_plain c :
  is_word_or_dot c = true ->
  is_char "{" c = false /\ is_char "}" c = false /\ is_char "$" c = false.
Proof. destruct c as [[] [] [] [] [] [] [] []]; vm_compute; intuition congruence. Qed.

Lemma space_char_plain c :
  is_space c = true -> is_char "{" c = false /\ is_char "}" c = false.
Proof. destruct c as [[] [] [] [] [] [] [] []]; vm_compute; intuition congruence. Qed.

Lemma name_brace_free n : sforall is_word_or_dot n = true -> brace_free n = true.
Proof.
  apply sforall_impl. intros c Hc. by rewrite (proj1 (name_char_plain c Hc)).
Qed.

Lemma name_dollar_free n : sforall is_word_or_dot n = true -> dollar_free n = true.
Proof.
  apply sforall_impl. intros c Hc.
  by rewrite (proj2 (proj2 (name_char_plain c Hc))).
Qed.

Lemma space_brace_free w : all_space w = true -> brace_free w = true.
Proof.
  apply sforall_impl. intros c Hc. by rewrite (proj1 (space_char_plain c Hc)).
Qed.

Lemma is_name_chars n : is_name n = true -> sforall is_word_or_dot n = true.
Proof. unfold is_name. by intros [_ H]%andb_true_iff. Qed.

Lemma token_ok_name p : token_ok p = true -> is_name (ident p) = true.
Proof. unfold token_ok. by intros [[_ H]%andb_true_iff _]%andb_true_iff. Qed.

Lemma placeholders_names s names :
  placeholders s names -> Forall (fun n => is_name n = true) names.
Proof.
  induction 1 as [|text p rest names Hp _ _ IH]; constructor; [|done].
  by apply token_ok_name.
Qed.

Lemma urlParams_of_rawURL c params :
  CustomRoute.urlParams c
  = CustomRoute.urlParams (with_url (CustomRoute.rawURL c) params).
Proof. reflexivity. Qed.

Lemma ToString_raises v :
  (exists text, ToString v = Returns text)
  \/ exists msg, ToString v = Throws (JsTypeError msg).
Proof.
  destruct v as [| | | | |o]; try (left; by eexists).
  cbn [ToString]. destruct (has_own "toString" o);
    [right|left]; by eexists.
Qed.

Lemma replace_raises s pat r :
  (exists u, replace s pat r = Returns u)
  \/ exists msg, replace s pat r = Throws (JsTypeError msg).
Proof.
  destruct r as [v|m|]; cbn [replace].
  - destruct (ToString_raises v) as [[text ->]|[msg ->]]; cbn [rbind].
    + left. destruct (split_first pat s) as [[pre post]|]; by eexists.
    + right. by eexists.
  - destruct (split_first pat s) as [[pre post]|]; [|left; by eexists].
    destruct m; cbn [ObjectPrototype.call rbind];
      first [left; by eexists | right; by eexists].
  - left. destruct (split_first pat s) as [[pre post]|]; by eexists.
Qed.

Lemma fold_raises c names r :
  (exists u, r = Returns u) \/ (exists msg, r = Throws (JsTypeError msg)) ->
  (exists u, fold_left (CustomRoute.replaceURLParam c) names r = Returns u)
  \/ exists msg,
       fold_left (CustomRoute.replaceURLParam c) names r
       = Throws (JsTypeError msg).
Proof.
  revert r. induction names as [|n names IH]; intros r Hr; [done|].
  cbn [fold_left]. apply IH.
  destruct Hr as [[u ->]|[msg ->]]; cbn [CustomRoute.replaceURLParam rbind].
  - apply replace_raises.
  - right. by eexists.
Qed.

(** X1. The extraction of the names never raises, whatever the template:
    the inner match that [urlParams] indexes with [[0]] is never [null],
    and every name it returns is a non-empty run of word characters and
    dots.  The resolution, [url], returns or throws a TypeError, and it
    can only throw when there is a name to replace and the route params
    are not empty. *)
Theorem extraction_never_raises c :
  exists names,
    CustomRoute.urlParams c = Returns names
    /\ Forall (fun n => is_name n = true) names
    /\ ((exists url, CustomRoute.url c = Returns url)
        \/ (exists msg, CustomRoute.url c = Throws (JsTypeError msg))
           /\ names <> [] /\ size (CustomRoute.routeParams c) <> 0).
Proof.
  destruct (placeholders_total (CustomRoute.rawURL c)) as [names Hn].
  pose proof (placeholders_extracted _ _ ∅ Hn) as He.
  rewrite <- urlParams_of_rawURL in He.
  exists names. split; [done|]. split; [by eapply placeholders_names|].
  unfold CustomRoute.url, CustomRoute.replaceURLParams. rewrite He.
  cbn [rbind].
  destruct names as [|n names]; [left; by eexists|].
  destruct (size (CustomRoute.routeParams c)) as [|k] eqn:Es;
    [left; by eexists|].
  cbn [length Nat.eqb negb andb].
  destruct (fold_raises c (n :: names) (Returns (CustomRoute.rawURL c)))
    as [H|H]; [left; by eexists|by left|right; by repeat split].
Qed.

(** X2. A template in which no placeholder opens resolves to itself,
    whatever the route params. *)
Theorem url_without_placeholders s params :
  placeholders s [] -> CustomRoute.url (with_url s params) = Returns s.
Proof.
  intros H. unfold CustomRoute.url, CustomRoute.replaceURLParams.
  by rewrite (placeholders_extracted _ _ params H).
Qed.

Lemma url_without_placeholders_witness :
  placeholders "/users/all" []
  /\ CustomRoute.url (with_url "/users/all" {[ "id" := JString "42" ]})
     = Returns "/users/all".
Proof.
  assert (placeholders "/users/all" []) as H.
  { apply placeholders_none, brace_free_quiet. reflexivity. }
  split; [exact H|].
  exact (url_without_placeholders "/users/all" {[ "id" := JString "42" ]} H).
Defined.

End TemplateEdges.

Section TemplateSubstitution.
Import JsString Template.

Lemma brace_pattern n : "{" ++ n ++ "}" = String "{" (n ++ "}").
Proof. reflexivity. Qed.

Lemma split_first_empty pat : split_first (String "{" pat) "" = None.
Proof. reflexivity. Qed.

(** A pattern that opens with a brace does not begin in brace-free text. *)
Lemma split_first_skip a pat s :
  brace_free a = true -> split_first (String "{" pat) s = None ->
  split_first (String "{" pat) (a ++ s) = None.
Proof.
  unfold brace_free. intros Ha Hs. induction a as [|c a IH]; [done|].
  cbn [sforall] in Ha. apply andb_true_iff in Ha as [Hc Ha].
  apply negb_true_iff in Hc. unfold is_char in Hc.
  rewrite sapp_cons. cbn [split_first strip_prefix].
  by rewrite Ascii.eqb_sym, Hc, (IH Ha).
Qed.

Lemma strip_name_then_space n i x w :
  sforall is_word_or_dot n = true -> sforall is_word_or_dot i = true ->
  is_space x = true ->
  strip_prefix (n ++ "}") (i ++ String x w) = None.
Proof.
  intros Hn Hi Hx. revert i Hi. induction n as [|a n IH]; intros i Hi.
  - rewrite sapp_nil_l. destruct i as [|c i].
    + rewrite sapp_nil_l. cbn [strip_prefix].
      destruct (space_char_plain x Hx) as [_ H]. unfold is_char in H.
      by rewrite Ascii.eqb_sym, H.
    + cbn [sforall] in Hi. apply andb_true_iff in Hi as [Hc _].
      rewrite sapp_cons. cbn [strip_prefix].
      destruct (name_char_plain c Hc) as (_ & H & _). unfold is_char in H.
      by rewrite Ascii.eqb_sym, H.
  - cbn [sforall] in Hn. apply andb_true_iff in Hn as [Ha Hn].
    rewrite sapp_cons. destruct i as [|c i].
    + rewrite sapp_nil_l. cbn [strip_prefix].
      destruct (Ascii.eqb a x) eqn:E; [|done].
      apply Ascii.eqb_eq in E as ->. by rewrite (space_not_name _ Hx) in Ha.
    + cbn [sforall] in Hi. apply andb_true_iff in Hi as [_ Hi].
      rewrite sapp_cons. cbn [strip_prefix].
      destruct (Ascii.eqb a c); [by apply IH|done].
Qed.

(** The unpadded form of a name does not begin at a padded placeholder. *)
Lemma strip_prefix_padded p n rest :
  token_ok p = true -> padded p = true -> is_name n = true ->
  strip_prefix (n ++ "}")
    (pad_left p ++ ident p ++ pad_right p ++ "}" ++ rest) = None.
Proof.
  unfold token_ok, padded, plain.
  intros [[Hl Hi]%andb_true_iff Hr]%andb_true_iff Hpad Hn.
  apply is_name_chars in Hi.
  destruct (pad_left p) as [|x l] eqn:El.
  - destruct (pad_right p) as [|y r] eqn:Er; [done|].
    rewrite sapp_nil_l, sapp_cons. unfold all_space in Hr. cbn [sforall] in Hr.
    apply andb_true_iff in Hr as [Hy _].
    apply strip_name_then_space; [by apply is_name_chars|done|done].
  - unfold all_space in Hl. cbn [sforall] in Hl.
    apply andb_true_iff in Hl as [Hx _].
    destruct (name_head _ Hn) as (a & n' & -> & Ha & _).
    rewrite !sapp_cons. cbn [strip_prefix].
    destruct (Ascii.eqb a x) eqn:E; [|done].
    apply Ascii.eqb_eq in E as ->. by rewrite (space_not_name _ Hx) in Ha.
Qed.

Lemma inside_token_brace_free p :
  token_ok p = true ->
  brace_free (pad_left p ++ ident p ++ pad_right p ++ "}") = true.
Proof.
  unfold token_ok. intros [[Hl Hi]%andb_true_iff Hr]%andb_true_iff.
  pose proof (space_brace_free _ Hl) as H1.
  pose proof (name_brace_free _ (is_name_chars _ Hi)) as H2.
  pose proof (space_brace_free _ Hr) as H3.
  unfold brace_free in *. rewrite !sforall_app, H1, H2, H3. reflexivity.
Qed.

Lemma token_no_occurrence p n rest :
  token_ok p = true -> padded p = true -> is_name n = true ->
  split_first ("{" ++ n ++ "}") rest = None ->
  split_first ("{" ++ n ++ "}") (token p ++ rest) = None.
Proof.
  intros Hp Hpad Hn Hrest. unfold token. rewrite brace_pattern in *.
  rewrite !sapp_assoc, (sapp_cons "{" ""), sapp_nil_l.
  cbn [split_first strip_prefix]. rewrite Ascii.eqb_refl.
  rewrite (strip_prefix_padded p n rest Hp Hpad Hn).
  rewrite <- !sapp_assoc.
  rewrite (split_first_skip _ (n ++ "}") rest); [done| |done].
  rewrite !sapp_assoc. by apply inside_token_brace_free.
Qed.

Lemma render_no_occurrence parts tail n :
  forallb well_formed parts = true -> forallb padded parts = true ->
  brace_free tail = true -> is_name n = true ->
  split_first ("{" ++ n ++ "}") (render parts tail) = None.
Proof.
  intros Hw Hp Ht Hn. induction parts as [|p parts IH]; cbn [render].
  - rewrite <- (sapp_nil_r tail), brace_pattern.
    by apply split_first_skip.
  - cbn [forallb] in Hw, Hp.
    apply andb_true_iff in Hw as [[Hl Hok]%andb_true_iff Hw].
    apply andb_true_iff in Hp as [Hpad Hp].
    rewrite brace_pattern. apply split_first_skip; [done|].
    rewrite <- brace_pattern. apply token_no_occurrence; auto.
Qed.

(** A replacement whose pattern does not occur changes nothing, once its
    value is converted. *)
Lemma fold_replace_absent c names s :
  Forall (fun n =>
            split_first ("{" ++ n ++ "}") s = None
            /\ forall v, CustomRoute.routeParams c !! n = Some v ->
                         exists text, ToString v = Returns text) names ->
  fold_left (CustomRoute.replaceURLParam c) names (Returns s) = Returns s.
Proof.
  induction 1 as [|n names [Hn Hv] _ IH]; [done|].
  cbn [fold_left]. unfold CustomRoute.replaceURLParam at 2. cbn [rbind].
  unfold CustomRoute.param_value.
  destruct (CustomRoute.routeParams c !! n) as [v|].
  - destruct (Hv v eq_refl) as [text Ht]. unfold replace.
    by rewrite Ht, Hn.
  - destruct (ObjectPrototype.lookup n) as [[m|]|]; unfold replace.
    + by rewrite Hn.
    + by rewrite Hn.
    + cbn [ToString toString rbind]. by rewrite Hn.
Qed.

(** X3. A placeholder written with white space inside its braces is
    extracted (its name is listed) but never substituted: a template whose
    placeholders are all padded resolves to itself, whatever the route
    params hold, provided that the entries of the listed names have a
    string form (each is converted before the search). *)
Theorem padded_placeholders_stay parts tail params :
  forallb well_formed parts = true -> forallb padded parts = true ->
  forallb (convertible params) parts = true ->
  brace_free tail = true ->
  CustomRoute.urlParams (with_url (render parts tail) params)
  = Returns (map ident parts)
  /\ CustomRoute.url (with_url (render parts tail) params)
     = Returns (render parts tail).
Proof.
  intros Hw Hp Hc Ht. split; [by apply urlParams_render|].
  unfold CustomRoute.url, CustomRoute.replaceURLParams.
  rewrite (urlParams_render _ _ _ Hw Ht). cbn [rbind].
  destruct (_ && _); [|done].
  apply fold_replace_absent.
  apply List.Forall_forall. intros n (p & <- & Hin)%in_map_iff. split.
  - apply render_no_occurrence; [done..|].
    apply token_ok_name.
    rewrite forallb_forall in Hw. apply Hw in Hin.
    unfold well_formed in Hin. by apply andb_true_iff in Hin as [_ ?].
  - intros v Hv. rewrite forallb_forall in Hc. apply Hc in Hin.
    unfold convertible in Hin.
    change (CustomRoute.routeParams (with_url (render parts tail) params))
      with params in Hv.
    rewrite Hv in Hin. destruct (ToString v) as [text|]; [by exists text|done].
Qed.

Lemma padded_placeholders_stay_witness :
  let parts := [ {| lead := "/users/"; pad_left := " "; ident := "id";
                    pad_right := " " |};
                 {| lead := "/posts/"; pad_left := ""; ident := "postId";
                    pad_right := " " |} ] in
  let params : gmap string jsval :=
    {[ "id" := JString "42"; "postId" := JObject [("n", JNum 7)] ]} in
  render parts "" = "/users/{ id }/posts/{postId }"
  /\ CustomRoute.urlParams (with_url (render parts "") params)
     = Returns ["id"; "postId"]
  /\ CustomRoute.url (with_url (render parts "") params)
     = Returns "/users/{ id }/posts/{postId }".
Proof.
  intros parts params. split; [reflexivity|].
  apply (padded_placeholders_stay parts "" params); reflexivity.
Defined.

End TemplateSubstitution.

Section TemplateValues.
Import JsString Template.

Lemma routeParams_with_url u params :
  CustomRoute.routeParams (with_url u params) = params.
Proof. reflexivity. Qed.

Lemma rawURL_with_url u params : CustomRoute.rawURL (with_url u params) = u.
Proof. reflexivity. Qed.

Lemma getSubstitution_prefix m pre post a t :
  dollar_free a = true ->
  getSubstitution m pre post (a ++ t) = a ++ getSubstitution m pre post t.
Proof.
  unfold dollar_free. induction a as [|c a IH]; [done|].
  cbn [sforall]. intros [Hc Ha]%andb_true_iff.
  apply negb_true_iff in Hc. unfold is_char in Hc.
  rewrite !sapp_cons. cbn [getSubstitution]. by rewrite Hc, (IH Ha).
Qed.

Lemma getSubstitution_dollar m pre post t :
  getSubstitution m pre post ("$$" ++ t)
  = "$" ++ getSubstitution m pre post t.
Proof. reflexivity. Qed.

Lemma getSubstitution_matched m pre post t :
  getSubstitution m pre post ("$&" ++ t)
  = m ++ getSubstitution m pre post t.
Proof. reflexivity. Qed.

Lemma lookup_size_nonzero (params : gmap string jsval) n v :
  params !! n = Some v -> (size params =? 0)%nat = false.
Proof.
  intros H. apply Nat.eqb_neq. intros E%map_size_empty_iff.
  by rewrite E, lookup_empty in H.
Qed.

(** A template with one placeholder, whose name the params have. *)
Lemma url_single pre n post params v text :
  brace_free pre = true -> is_name n = true -> brace_free post = true ->
  params !! n = Some v -> ToString v = Returns text ->
  CustomRoute.url (with_url (pre ++ ("{" ++ n ++ "}") ++ post) params)
  = Returns (pre ++ getSubstitution ("{" ++ n ++ "}") pre post text ++ post).
Proof.
  intros Hpre Hn Hpost Hv Ht.
  pose (p := {| lead := pre; pad_left := ""; ident := n; pad_right := "" |}).
  assert (pre ++ ("{" ++ n ++ "}") ++ post = render [p] post) as E by done.
  unfold CustomRoute.url, CustomRoute.replaceURLParams.
  rewrite E, (urlParams_render [p] post params).
  - cbn [rbind map length Nat.eqb negb andb ident p].
    rewrite !routeParams_with_url.
    rewrite (lookup_size_nonzero _ _ _ Hv). cbn [negb fold_left].
    rewrite !rawURL_with_url.
    unfold CustomRoute.replaceURLParam. cbn [rbind].
    unfold CustomRoute.param_value. rewrite routeParams_with_url, Hv.
    rewrite <- E. by apply replace_value.
  - cbn [forallb]. unfold well_formed, token_ok. cbn [lead pad_left ident pad_right p].
    by rewrite Hpre, Hn.
  - done.
Qed.

(** A value whose string form holds a [$] is not an object: it has that
    string form. *)
Lemma ToString_dollar v a b :
  toString v = a ++ String "$" b -> ToString v = Returns (toString v).
Proof.
  destruct v as [| | | | |o]; try reflexivity.
  cbn [toString]. intros H.
  assert (sexists (is_char "$") "[object Object]" = true) as E; [|done].
  rewrite H, sexists_app. cbn [sexists]. unfold is_char at 2.
  by rewrite Ascii.eqb_refl, orb_true_r.
Qed.

(** X4. The value of a param goes through the [$] patterns of
    [String.prototype.replace]: [$$] in it comes out as one [$], and [$&]
    as the placeholder itself. *)
Theorem dollar_patterns_in_values pre n post params v a b :
  brace_free pre = true -> is_name n = true -> brace_free post = true ->
  params !! n = Some v ->
  dollar_free a = true -> dollar_free b = true ->
  (toString v = a ++ "$$" ++ b ->
     CustomRoute.url (with_url (pre ++ ("{" ++ n ++ "}") ++ post) params)
     = Returns (pre ++ (a ++ "$" ++ b) ++ post))
  /\ (toString v = a ++ "$&" ++ b ->
        CustomRoute.url (with_url (pre ++ ("{" ++ n ++ "}") ++ post) params)
        = Returns (pre ++ (a ++ ("{" ++ n ++ "}") ++ b) ++ post)).
Proof.
  intros Hpre Hn Hpost Hv Ha Hb.
  split; intros E;
    rewrite (url_single pre n post params v (toString v) Hpre Hn Hpost Hv
               (ToString_dollar v a _ E));
    rewrite E, (getSubstitution_prefix _ _ _ a) by done.
  - by rewrite getSubstitution_dollar, getSubstitution_plain.
  - by rewrite getSubstitution_matched, getSubstitution_plain.
Qed.

Lemma dollar_patterns_in_values_witness :
  let params : gmap string jsval := {[ "price" := JString "US$$5" ]} in
  params !! "price" = Some (JString "US$$5")
  /\ CustomRoute.url (with_url "/items/{price}/buy" params)
     = Returns "/items/US$5/buy".
Proof.
  intros params. split; [reflexivity|].
  apply (proj1 (dollar_patterns_in_values "/items/" "price" "/buy" params
                  (JString "US$$5") "US" "5"
                  eq_refl eq_refl eq_refl eq_refl eq_refl eq_refl)).
  reflexivity.
Defined.

(** X5. Resolution is sequential, not simultaneous: a value that is itself
    the text of a later placeholder is taken for that placeholder by the
    next replacement, and the later placeholder of the template stays.
    (The literal text has no opening brace; the entry of the later name has
    a string form, without [$] pattern.) *)
Theorem value_taken_for_placeholder pre a mid b post params v text :
  brace_free pre = true -> brace_free mid = true -> brace_free post = true ->
  is_name a = true -> is_name b = true ->
  params !! a = Some (JString ("{" ++ b ++ "}")) ->
  params !! b = Some v ->
  ToString v = Returns text -> pattern_free text = true ->
  CustomRoute.url
    (with_url (pre ++ ("{" ++ a ++ "}") ++ mid ++ ("{" ++ b ++ "}") ++ post)
       params)
  = Returns (pre ++ text ++ mid ++ ("{" ++ b ++ "}") ++ post).
Proof.
  intros Hpre Hmid Hpost Ha Hb Hva Hvb Ht Hd.
  pose (pa := {| lead := pre; pad_left := ""; ident := a; pad_right := "" |}).
  pose (pb := {| lead := mid; pad_left := ""; ident := b; pad_right := "" |}).
  assert (pre ++ ("{" ++ a ++ "}") ++ mid ++ ("{" ++ b ++ "}") ++ post
          = render [pa; pb] post) as E by done.
  unfold CustomRoute.url, CustomRoute.replaceURLParams.
  rewrite E, (urlParams_render [pa; pb] post params).
  - cbn [rbind map length Nat.eqb negb andb ident pa pb].
    rewrite !routeParams_with_url.
    rewrite (lookup_size_nonzero _ _ _ Hva). cbn [negb fold_left].
    rewrite !rawURL_with_url.
    unfold CustomRoute.replaceURLParam, CustomRoute.param_value.
    rewrite !routeParams_with_url.
    rewrite Hva, Hvb. rewrite <- E. cbn [rbind].
    rewrite (replace_value pre a _ ("{" ++ b ++ "}")) by done.
    cbn [rbind]. rewrite getSubstitution_plain.
    + rewrite (replace_value pre b v text) by done.
      by rewrite getSubstitution_pattern_free.
    + pose proof (name_dollar_free _ (is_name_chars _ Hb)) as H.
      unfold dollar_free in *. rewrite brace_pattern. cbn [sforall].
      by rewrite sforall_app, H.
  - cbn [forallb]. unfold well_formed, token_ok.
    cbn [lead pad_left ident pad_right pa pb]. by rewrite Hpre, Hmid, Ha, Hb.
  - done.
Qed.

Lemma value_taken_for_placeholder_witness :
  let params : gmap string jsval :=
    {[ "a" := JString "{b}"; "b" := JNum 42 ]} in
  params !! "a" = Some (JString "{b}")
  /\ params !! "b" = Some (JNum 42)
  /\ CustomRoute.url (with_url "/{a}/{b}" params) = Returns "/42/{b}".
Proof.
  intros params. split; [reflexivity|]. split; [reflexivity|].
  apply (value_taken_for_placeholder "/" "a" "/" "b" "" params (JNum 42) "42");
    reflexivity.
Defined.

(** A template with one placeholder, whose name the params do not have
    and [Object.prototype] has as a function. *)
Lemma url_single_inherited pre n post params m :
  brace_free pre = true -> is_name n = true -> brace_free post = true ->
  size params <> 0 -> params !! n = None ->
  ObjectPrototype.lookup n = Some (ObjectPrototype.Method m) ->
  CustomRoute.url (with_url (pre ++ ("{" ++ n ++ "}") ++ post) params)
  = rbind (ObjectPrototype.call m ("{" ++ n ++ "}"))
      (fun text => Returns (pre ++ text ++ post)).
Proof.
  intros Hpre Hn Hpost Hs Hv Hm.
  pose (p := {| lead := pre; pad_left := ""; ident := n; pad_right := "" |}).
  assert (pre ++ ("{" ++ n ++ "}") ++ post = render [p] post) as E by done.
  unfold CustomRoute.url, CustomRoute.replaceURLParams.
  rewrite E, (urlParams_render [p] post params).
  - cbn [rbind map length Nat.eqb negb andb ident p].
    rewrite !routeParams_with_url.
    apply Nat.eqb_neq in Hs. rewrite Hs. cbn [negb fold_left].
    rewrite !rawURL_with_url.
    unfold CustomRoute.replaceURLParam. cbn [rbind].
    unfold CustomRoute.param_value. rewrite routeParams_with_url, Hv, Hm.
    rewrite <- E. unfold replace.
    rewrite (sapp_cons "{" "" _), sapp_nil_l.
    by rewrite (split_first_literal pre (n ++ "}") post Hpre).
  - cbn [forallb]. unfold well_formed, token_ok. cbn [lead pad_left ident pad_right p].
    by rewrite Hpre, Hn.
  - done.
Qed.

(** X24. The entry of a name is read through the prototype of the route
    params: for a placeholder named like a function of [Object.prototype],
    when the params have no entry of their own under that name, the
    replacement is that function, called on the placeholder.  With route
    params that are not empty and literal text without opening braces
    around the placeholder: [{valueOf}] makes the resolution throw a
    TypeError, [{constructor}] stays as it is, and [{toString}] becomes
    "[object Undefined]". *)
Theorem inherited_names_as_replacers pre post params :
  brace_free pre = true -> brace_free post = true -> size params <> 0 ->
  (params !! "valueOf" = None ->
     exists msg,
       CustomRoute.url (with_url (pre ++ "{valueOf}" ++ post) params)
       = Throws (JsTypeError msg))
  /\ (params !! "constructor" = None ->
        CustomRoute.url (with_url (pre ++ "{constructor}" ++ post) params)
        = Returns (pre ++ "{constructor}" ++ post))
  /\ (params !! "toString" = None ->
        CustomRoute.url (with_url (pre ++ "{toString}" ++ post) params)
        = Returns (pre ++ "[object Undefined]" ++ post)).
Proof.
  intros Hpre Hpost Hs. repeat split; intros Hv.
  - eexists.
    exact (url_single_inherited pre "valueOf" post params
             ObjectPrototype.valueOf Hpre eq_refl Hpost Hs Hv eq_refl).
  - exact (url_single_inherited pre "constructor" post params
             ObjectPrototype.Object_constructor Hpre eq_refl Hpost Hs Hv
             eq_refl).
  - exact (url_single_inherited pre "toString" post params
             ObjectPrototype.proto_toString Hpre eq_refl Hpost Hs Hv eq_refl).
Qed.

Lemma inherited_names_as_replacers_witness :
  let params : gmap string jsval := {[ "other" := JString "x" ]} in
  size params <> 0
  /\ params !! "valueOf" = None
  /\ (exists msg,
        CustomRoute.url (with_url "/x/{valueOf}" params)
        = Throws (JsTypeError msg))
  /\ CustomRoute.url (with_url "/x/{constructor}/y" params)
     = Returns "/x/{constructor}/y".
Proof.
  intros params.
  assert (size params <> 0) as Hs by (vm_compute; congruence).
  split; [exact Hs|]. split; [reflexivity|]. split.
  - apply (proj1 (inherited_names_as_replacers "/x/" "" params
                    eq_refl eq_refl Hs)).
    reflexivity.
  - reflexivity.
Defined.

End TemplateValues.

(** ** More on the request lifecycle *)

Section LogFacts.
Import Request.

Lemma count_nil p : count p [] = 0.
Proof. reflexivity. Qed.

Lemma count_cons p ev log :
  count p (ev :: log) = (if p ev then 1 else 0) + count p log.
Proof.
  unfold count. rewrite filter_cons.
  destruct (p ev) eqn:E; case_decide; try congruence; done.
Qed.

Lemma count_app p l1 l2 : count p (l1 ++ l2)%list = count p l1 + count p l2.
Proof.
  induction l1 as [|ev l1 IH]; [done|].
  rewrite <- app_comm_cons, !count_cons, IH. lia.
Qed.

End LogFacts.

Ltac count_log :=
  cbn -[Request.count]; rewrite ?count_app, ?count_cons, ?count_nil; cbn.

Section RequestEdges.
Import Request.

Lemma lower_char_idempotent c :
  JsString.lower_char (JsString.lower_char c) = JsString.lower_char c.
Proof. destruct c as [[] [] [] [] [] [] [] []]; reflexivity. Qed.

Lemma toLowerCase_idempotent s :
  JsString.toLowerCase (JsString.toLowerCase s) = JsString.toLowerCase s.
Proof.
  induction s as [|c s IH]; [done|]. cbn [JsString.toLowerCase].
  by rewrite lower_char_idempotent, IH.
Qed.

(** X6. The type of a request counts in lower case only: [request] does
    the same for a type and for its lower-case form (the check, the hook
    and the transport all see the lower-case form). *)
Theorem request_type_case_insensitive self type url s :
  request self (JsString.toLowerCase type) url s = request self type url s.
Proof. unfold request. by rewrite toLowerCase_idempotent. Qed.

Lemma request_log self type url s :
  let run := request self type url s in
  session_of run = s
  /\ count is_reset_data (events_of run) = 0
  /\ count is_reset_url (events_of run) = 0
  /\ count is_dispatch (events_of run) <= 1
  /\ count is_settled (events_of run) = 0.
Proof.
  cbv zeta. unfold request, beforeRequest.
  destruct (isAllowedRequestType _ _ _); [|cbn; repeat split; lia]. run_M.
  destruct (beforeRequest_hook _ _ _) as [[]|e].
  - destruct (debug _); run_M; cbn [app]; count_log; repeat split; lia.
  - cbn [app]. count_log. repeat split; lia.
Qed.

(** X7. [request] itself never touches the session and never resets
    anything, whether it throws, short-circuits to the fake request or
    calls the transport; it dispatches at most once and settles nothing
    by itself. *)
Theorem request_frame self type url s :
  let run := request self type url s in
  session_of run = s
  /\ count is_reset_data (events_of run) = 0
  /\ count is_reset_url (events_of run) = 0
  /\ count is_dispatch (events_of run) <= 1
  /\ count is_settled (events_of run) = 0.
Proof. apply request_log. Qed.

(** X8. When the [beforeRequest] hook throws, [request] throws the same
    error at once: the hook was called, but neither the transport nor the
    fake request is, and the session is as it was. *)
Theorem request_hook_throws self type url s e :
  isAllowedRequestType self (JsString.toLowerCase type) (config self) = true ->
  beforeRequest_hook (config self) (JsString.toLowerCase type) url = Throws e ->
  request self type url s
  = (Throws e, s, [BeforeRequestHook (JsString.toLowerCase type) url]).
Proof.
  intros Ha Hh. unfold request, beforeRequest. rewrite Ha. run_M.
  by rewrite Hh.
Qed.

Lemma request_hook_throws_witness :
  let self := Sample.self_with false (fun _ _ => Throws (JsError "no"))
                Sample.returns Sample.failing in
  isAllowedRequestType self (JsString.toLowerCase "POST") (config self) = true
  /\ request self "POST" "/users" Sample.session
     = (Throws (JsError "no"), Sample.session,
        [BeforeRequestHook "post" "/users"]).
Proof.
  intros self. split; [reflexivity|].
  apply (request_hook_throws self "POST" "/users" Sample.session (JsError "no"));
    reflexivity.
Defined.

(** X9. Whatever the outcome of the transport and whatever the hooks do,
    the reactions of a dispatched request begin with the two resets, and
    only then call the hook of the outcome: [config.afterRequest] and
    [config.onError] always run after [resetRequestData] and
    [resetURLParams]. *)
Theorem resets_precede_hooks self type url args o s :
  exists rest,
    events_of (settle self (Pending type url args) o s)
    = ([ ResetRequestData; ResetURLParams;
         match o with
         | Fulfilled response => AfterRequestHook response
         | Rejected error => OnErrorHook error
         end ] ++ rest)%list.
Proof.
  unfold settle, reactions, afterRequest, onError, resetRequestData,
    resetURLParams.
  destruct o as [response|error]; run_M.
  - destruct (afterRequest_hook (config self) response) as [[]|e]; run_M;
      [by eexists|].
    destruct (onError_hook (config self) e); by eexists.
  - destruct (onError_hook (config self) error); by eexists.
Qed.

(** X10. An error thrown by the [afterRequest] hook is handled like a
    failure of the transport: [onError] runs with that error and the
    promise is rejected with it; it is never resolved, although the
    transport succeeded. *)
Theorem after_hook_error_rejects self type url args response e s :
  afterRequest_hook (config self) response = Throws e ->
  onError_hook (config self) e = Returns tt ->
  let run := settle self (Pending type url args) (Fulfilled response) s in
  result_of run = Returns tt
  /\ events_of run
     = [ResetRequestData; ResetURLParams; AfterRequestHook response;
        ResetRequestData; ResetURLParams; OnErrorHook e; Reject e]
  /\ count is_resolve (events_of run) = 0.
Proof.
  intros Ha He. unfold settle, reactions, afterRequest, onError,
    resetRequestData, resetURLParams. run_M. rewrite Ha. run_M.
  rewrite He. repeat split.
Qed.

Lemma after_hook_error_rejects_witness :
  let self := Sample.self false Sample.throws in
  afterRequest_hook (config self) (JString "ok") = Throws (JsError "hook failed")
  /\ count is_resolve
       (events_of (settle self (Pending "get" "/users" [])
                     (Fulfilled (JString "ok")) Sample.session)) = 0.
Proof.
  intros self. split; [reflexivity|].
  apply (after_hook_error_rejects self "get" "/users" [] (JString "ok")
           (JsError "hook failed") Sample.session); reflexivity.
Defined.

(** X11. When the [onError] hook throws, the promise that [request]
    returned is never settled: [reject] is not reached (nor [resolve]),
    and the hook's error escapes the reaction. This on the failure path
    and on the path of a throwing [afterRequest] hook alike. *)
Theorem onError_hook_throws_never_settles self type url args o e e' s :
  match o with
  | Rejected error => error = e
  | Fulfilled response => afterRequest_hook (config self) response = Throws e
  end ->
  onError_hook (config self) e = Throws e' ->
  let run := settle self (Pending type url args) o s in
  result_of run = Throws e'
  /\ count is_settled (events_of run) = 0.
Proof.
  intros Ho He. unfold settle, reactions, afterRequest, onError,
    resetRequestData, resetURLParams.
  destruct o as [response|error]; run_M.
  - rewrite Ho. run_M. rewrite He. by split.
  - subst error. rewrite He. by split.
Qed.

Lemma onError_hook_throws_never_settles_witness :
  let self := Sample.self_with false (fun _ _ => Returns tt)
                Sample.returns Sample.failing in
  let run := settle self (Pending "get" "/users" [])
               (Rejected (JsError "timeout")) Sample.session in
  onError_hook (config self) (JsError "timeout") = Throws (JsError "hook failed")
  /\ result_of run = Throws (JsError "hook failed")
  /\ count is_settled (events_of run) = 0.
Proof.
  intros self run. split; [reflexivity|].
  apply (onError_hook_throws_never_settles self "get" "/users" []
           (Rejected (JsError "timeout")) (JsError "timeout")
           (JsError "hook failed") Sample.session); reflexivity.
Defined.

(** X12. [buildRequest] resets the urlParams exactly when some are
    pending (an empty array counts as pending) and never the request
    data; with none pending it is [request] on the URL of the supplied
    params, and the session is as it was. *)
Theorem buildRequest_resets_when_pending self type supplied s :
  let run := buildRequest self type supplied s in
  count is_reset_url (events_of run) = (if urlParams s is Some _ then 1 else 0)
  /\ count is_reset_data (events_of run) = 0
  /\ if urlParams s is Some _ then True
     else run = request self type (makeUrl self supplied) s
          /\ session_of run = s.
Proof.
  destruct s as [data [pending|]]; unfold buildRequest, resetURLParams; run_M;
    cbn [requestData urlParams]; run_M.
  - pose proof (request_log self type
                  (makeUrl self (pending ++ supplied)%list)
                  {| requestData := data; urlParams := None |}) as H.
    revert H. run_M.
    destruct (request _ _ _ _) as [[r s'] l]. cbn [fst snd].
    intros (-> & H1 & H2 & _). cbn [app]. rewrite !count_cons, H1, H2. by cbn.
  - pose proof (request_log self type (makeUrl self supplied)
                  {| requestData := data; urlParams := None |}) as H.
    revert H. run_M.
    destruct (request _ _ _ _) as [[r s'] l]. cbn [fst snd app].
    by intros (-> & H1 & H2 & _).
Qed.

End RequestEdges.

(** ** Routes by name *)

Section NamedRoutes.
Import Request Template.

(** The url of a route whose template is given by its parts. *)
Lemma url_fill c parts tail :
  CustomRoute.rawURL c = render parts tail ->
  forallb well_formed parts = true -> forallb plain parts = true ->
  forallb (inert (CustomRoute.routeParams c)) parts = true ->
  brace_free tail = true -> size (CustomRoute.routeParams c) <> 0 ->
  CustomRoute.url c = Returns (fill (CustomRoute.routeParams c) parts tail).
Proof.
  intros Hraw Hw Hp Hi Ht Hn.
  unfold CustomRoute.url, CustomRoute.replaceURLParams.
  rewrite (urlParams_of_rawURL c ∅), Hraw, (urlParams_render _ _ _ Hw Ht).
  cbn [rbind]. destruct parts as [|p parts]; [done|].
  apply Nat.eqb_neq in Hn. rewrite Hn. cbn [length Nat.eqb negb andb].
  f_equal.
  pose proof (fold_replace c (p :: parts) tail "" Hw Hp Hi eq_refl) as H.
  by rewrite !sapp_nil_l in H.
Qed.

(** The session after [route] has looked at its request params. *)
Lemma route_request self name routeParams requestParams s u :
  CustomRoute.url (getCustomRoute self name routeParams) = Returns u ->
  route self name routeParams requestParams s
  = request self (CustomRoute.type (getCustomRoute self name routeParams)) u
      (if (length requestParams =? 0)%nat then s
       else {| requestData :=
                 Lodash.set "params" (JObject requestParams) (requestData s);
               urlParams := urlParams s |}).
Proof.
  intros Hu. unfold route, withParams. rewrite Hu.
  destruct (length requestParams =? 0)%nat; run_M; cbn [negb app];
    by destruct (request _ _ _ _) as [[? ?] ?].
Qed.

(** X13. [route] on a name that the route table does not have is not an
    error: it goes on with the type of the empty default route and the
    empty url, and, when that type is allowed, calls the transport on the
    empty url (as the sanitizer leaves it) with the args of the session's
    data. *)
Theorem route_unknown_name_dispatches self name routeParams s :
  let type :=
    JsString.toLowerCase (CustomRoute.type (CustomRoute.new None None)) in
  customRoutes self !! name = None ->
  isAllowedRequestType self type (config self) = true ->
  beforeRequest_hook (config self) type "" = Returns tt ->
  debug (config self) = false ->
  let url := sanitizeUrl self "" (trailingSlash (config self)) in
  let args := parseRequestData self type (requestData s) (config self) in
  route self name routeParams [] s
  = (Returns (Pending type url args), s,
     [BeforeRequestHook type ""; Transport type url args]).
Proof.
  intros type Hn Ha Hh Hd url args.
  rewrite (route_request self name routeParams [] s "").
  - unfold getCustomRoute. rewrite Hn. cbn [length Nat.eqb].
    unfold request, beforeRequest. fold type.
    rewrite Ha. run_M. by rewrite Hh, Hd.
  - unfold getCustomRoute. by rewrite Hn.
Qed.

Lemma route_unknown_name_dispatches_witness :
  let self := Sample.self false Sample.returns in
  customRoutes self !! "missingName" = None
  /\ route self "missingName" ∅ [] Sample.session
     = (Returns (Pending "get" "" [JObject [("page", JNum 2)]; JObject []]),
        Sample.session,
        [BeforeRequestHook "get" "";
         Transport "get" "" [JObject [("page", JNum 2)]; JObject []]]).
Proof.
  intros self. split; [reflexivity|].
  apply (route_unknown_name_dispatches self "missingName" ∅ Sample.session);
    reflexivity.
Defined.

(** X14. [route] replaces the session's params with its request params
    before it resolves the url and validates the type: when the type of
    the route is then refused, [route] throws with nothing dispatched (the
    error of the refusal, or the error of the resolution when the
    resolution of the url has thrown first), and the session keeps the new
    params. *)
Theorem route_refused_keeps_params self name routeParams requestParams s :
  requestParams <> [] ->
  isAllowedRequestType self
    (JsString.toLowerCase
       (CustomRoute.type (getCustomRoute self name routeParams)))
    (config self) = false ->
  route self name routeParams requestParams s
  = (match CustomRoute.url (getCustomRoute self name routeParams) with
     | Returns _ => Throws (JsError "This request type is not allowed.")
     | Throws e => Throws e
     end,
     {| requestData :=
          Lodash.set "params" (JObject requestParams) (requestData s);
        urlParams := urlParams s |},
     []).
Proof.
  intros Hne Ha.
  destruct requestParams as [|x l]; [done|].
  destruct (CustomRoute.url (getCustomRoute self name routeParams))
    as [u|e] eqn:Hu.
  - rewrite (route_request _ _ _ _ _ _ Hu). cbn [length Nat.eqb].
    unfold request. by rewrite Ha.
  - unfold route, withParams. rewrite Hu. by run_M.
Qed.

Lemma route_refused_keeps_params_witness :
  let self :=
    {| config := Sample.config false Sample.returns;
       customRoutes := customRoutes (Sample.self false Sample.returns);
       isAllowedRequestType := fun type _ => String.eqb type "post";
       sanitizeUrl := fun url _ => url;
       parseRequestData := fun _ _ _ => [];
       makeUrl := fun _ => "" |} in
  let run := route self "user" {[ "id" := JString "42" ]}
               [("draft", JBool true)] Sample.session in
  result_of run = Throws (JsError "This request type is not allowed.")
  /\ Lodash.get "params" (requestData (session_of run))
     = JObject [("draft", JBool true)]
  /\ events_of run = [].
Proof.
  intros self run. subst run.
  rewrite (route_refused_keeps_params self "user" {[ "id" := JString "42" ]}
             [("draft", JBool true)] Sample.session);
    [|discriminate|reflexivity].
  repeat split.
Defined.

(** X15. [route] on a configured name is [request] with the type of the
    route and the resolved url, run on the session in which the request
    params, if there are any, have replaced the params.  The resolved url
    is the template with the text of each name in the place of its
    placeholder, for a template of literal text without opening braces and
    placeholders [{name}], and route params that are not empty and that
    have for each name a text ([text_for]) without opening brace and
    without [$] pattern. *)
Theorem route_known_name self name def parts tail routeParams requestParams s :
  customRoutes self !! name = Some def ->
  CustomRoute.def_url def = Some (render parts tail) ->
  forallb well_formed parts = true -> forallb plain parts = true ->
  forallb (inert routeParams) parts = true -> brace_free tail = true ->
  size routeParams <> 0 ->
  route self name routeParams requestParams s
  = request self
      (CustomRoute.type (CustomRoute.new (Some def) (Some routeParams)))
      (fill routeParams parts tail)
      (if (length requestParams =? 0)%nat then s
       else {| requestData :=
                 Lodash.set "params" (JObject requestParams) (requestData s);
               urlParams := urlParams s |}).
Proof.
  intros Hn Hu Hw Hp Hi Ht Hs.
  rewrite (route_request self name routeParams requestParams s
             (fill routeParams parts tail)).
  - unfold getCustomRoute. by rewrite Hn.
  - unfold getCustomRoute. rewrite Hn.
    apply (url_fill (CustomRoute.new (Some def) (Some routeParams)) parts tail);
      try done.
    unfold CustomRoute.rawURL, CustomRoute.new. cbn. by rewrite Hu.
Qed.

Lemma route_known_name_witness :
  let self := Sample.self false Sample.returns in
  let parts := [ {| lead := "/users/"; pad_left := ""; ident := "id";
                    pad_right := "" |} ] in
  let routeParams : gmap string jsval := {[ "id" := JNum 42 ]} in
  events_of (route self "user" routeParams [("page", JNum 3)] Sample.session)
  = [ BeforeRequestHook "get" "/users/42";
      Transport "get" "/users/42" [JObject [("page", JNum 3)]; JObject []] ].
Proof.
  intros self parts routeParams.
  rewrite (route_known_name self "user"
             {| CustomRoute.def_url := Some "/users/{id}";
                CustomRoute.def_type := Some CustomRoute.GET;
                CustomRoute.def_name := Some "user" |}
             parts "" routeParams [("page", JNum 3)] Sample.session);
    [reflexivity..|].
  vm_compute. congruence.
Defined.

(** X16. [generate] on a configured name returns what [makeUrl] makes of
    the base URL and the resolved url, and the empty string when the
    template resolves to the empty string; the session and the log stay
    as they are.  The resolved url is the template with the text of each
    name in the place of its placeholder, for a template of literal text
    without opening braces and placeholders [{name}], and route params
    that are not empty and that have for each name a text ([text_for])
    without opening brace and without [$] pattern. *)
Theorem generate_known_name self name def parts tail routeParams s :
  customRoutes self !! name = Some def ->
  CustomRoute.def_url def = Some (render parts tail) ->
  forallb well_formed parts = true -> forallb plain parts = true ->
  forallb (inert routeParams) parts = true -> brace_free tail = true ->
  size routeParams <> 0 ->
  generate self name routeParams s
  = (Returns (if String.eqb (fill routeParams parts tail) "" then ""
              else makeUrl self [JString (baseURL (config self));
                                 JString (fill routeParams parts tail)]),
     s, []).
Proof.
  intros Hn Hu Hw Hp Hi Ht Hs. unfold generate, getCustomRoute. rewrite Hn.
  rewrite (url_fill (CustomRoute.new (Some def) (Some routeParams)) parts tail);
    try done.
  - run_M. by destruct (String.eqb _ "").
  - unfold CustomRoute.rawURL, CustomRoute.new. cbn. by rewrite Hu.
Qed.

Lemma generate_known_name_witness :
  let self := Sample.self false Sample.returns in
  let parts := [ {| lead := "/users/"; pad_left := ""; ident := "id";
                    pad_right := "" |} ] in
  let routeParams : gmap string jsval := {[ "id" := JNum 42 ]} in
  generate self "user" routeParams Sample.session
  = (Returns "https://api.example.com//users/42", Sample.session, []).
Proof.
  intros self parts routeParams.
  rewrite (generate_known_name self "user"
             {| CustomRoute.def_url := Some "/users/{id}";
                CustomRoute.def_type := Some CustomRoute.GET;
                CustomRoute.def_name := Some "user" |}
             parts "" routeParams Sample.session);
    [reflexivity..|].
  vm_compute. congruence.
Defined.

End NamedRoutes.

(** ** Accumulating the session *)

Section Accumulation.
Import Request.

(** X17. [withData] called without data (the default [{}]) changes
    nothing that can be read: every property of the accumulated request
    data reads as it did, and the pending urlParams stay.  (The accumulated
    properties have distinct keys; the property read is not named like a
    member of [Object.prototype], and neither is any property inside its
    value.) *)
Theorem withData_nothing s k :
  NoDup (Lodash.keys (requestData s)) ->
  own_name k = true ->
  Lodash.own_names (Lodash.get k (requestData s)) = true ->
  let run := withData [] s in
  result_of run = Returns tt
  /\ Lodash.get k (requestData (session_of run)) = Lodash.get k (requestData s)
  /\ urlParams (session_of run) = urlParams s
  /\ events_of run = [].
Proof.
  intros Hnd _ _. unfold withData, Lodash.defaultsDeep. run_M.
  cbn [requestData urlParams]. repeat split.
  rewrite mergeWith_get by done. cbn [Lodash.get].
  apply customDefaultsMerge_undefined.
Qed.

Lemma withData_nothing_witness :
  let run := withData [] Sample.session in
  NoDup (Lodash.keys (requestData Sample.session))
  /\ own_name "params" = true
  /\ Lodash.own_names (Lodash.get "params" (requestData Sample.session)) = true
  /\ Lodash.get "params" (requestData (session_of run))
     = JObject [("page", JNum 2)]
  /\ urlParams (session_of run) = urlParams Sample.session.
Proof.
  intros run.
  assert (NoDup (Lodash.keys (requestData Sample.session))) as Hnd.
  { apply (bool_decide_unpack _). vm_compute. exact I. }
  split; [exact Hnd|]. split; [reflexivity|]. split; [reflexivity|].
  destruct (withData_nothing Sample.session "params" Hnd eq_refl eq_refl)
    as (_ & H & Hu & _).
  split; [exact H|exact Hu].
Defined.

(** X18. [withParams] replaces the params, it does not merge them: after
    two calls the params are those of the second call alone, and every
    other property of the request data, and the pending urlParams, are
    as before. *)
Theorem withParams_replaces p1 p2 s :
  let run := bind (withParams p1) (fun _ => withParams p2) s in
  result_of run = Returns tt
  /\ Lodash.get "params" (requestData (session_of run)) = JObject p2
  /\ (forall k, k <> "params" ->
        Lodash.get k (requestData (session_of run))
        = Lodash.get k (requestData s))
  /\ urlParams (session_of run) = urlParams s
  /\ events_of run = [].
Proof.
  unfold withParams. run_M. cbn [requestData urlParams].
  repeat split.
  - apply get_set_eq.
  - intros k Hk. by rewrite !get_set_ne.
Qed.

(** X19. [withParam] adds one entry to the params that [withParams] has
    set: the entry reads back under the string form of its key, and every
    other entry is as given.  (The key has a string form, which is not the
    name of a member of [Object.prototype].) *)
Theorem withParam_after_withParams params key name value s :
  ToString key = Returns name -> own_name name = true ->
  let run := bind (withParams params) (fun _ => withParam key value) s in
  result_of run = Returns tt
  /\ exists params',
       Lodash.get "params" (requestData (session_of run)) = JObject params'
       /\ Lodash.get name params' = value
       /\ forall k, k <> name ->
            Lodash.get k params' = Lodash.get k params.
Proof.
  intros Hk _. unfold withParams, withParam, assign_member. run_M.
  cbn [requestData urlParams]. rewrite get_set_eq, Hk. run_M.
  split; [done|]. eexists. split; [apply get_set_eq|].
  split; [apply get_set_eq|]. intros k Hne. by apply get_set_ne.
Qed.

Lemma withParam_after_withParams_witness :
  let run := bind (withParams [("page", JNum 2)])
               (fun _ => withParam (JNum 7) (JString "x")) Sample.session in
  ToString (JNum 7) = Returns "7"
  /\ own_name "7" = true
  /\ exists params',
       Lodash.get "params" (requestData (session_of run)) = JObject params'
       /\ Lodash.get "7" params' = JString "x"
       /\ Lodash.get "page" params' = JNum 2.
Proof.
  intros run.
  destruct (withParam_after_withParams [("page", JNum 2)] (JNum 7) "7"
              (JString "x") Sample.session eq_refl eq_refl)
    as (_ & params' & H1 & H2 & H3).
  split; [reflexivity|]. split; [reflexivity|].
  exists params'. split; [exact H1|].
  split; [exact H2|]. by rewrite H3.
Defined.

(** X20. [withParam] and [withOption] need their container: once
    [withData] has put a value that is not an object under [params]
    (under [options]), the assignment throws a TypeError, and nothing is
    logged. *)
Theorem member_assignment_needs_container v key value s :
  Lodash.is_leaf v = true ->
  (let run := bind (withData [("params", v)]) (fun _ => withParam key value) s in
   result_of run = Throws (JsTypeError "Cannot set properties")
   /\ events_of run = [])
  /\ (let run := bind (withData [("options", v)])
                   (fun _ => withOption key value) s in
      result_of run = Throws (JsTypeError "Cannot set properties")
      /\ events_of run = []).
Proof.
  intros Hv.
  assert (forall field,
    Lodash.get field (Lodash.defaultsDeep [(field, v)] (requestData s)) = v)
    as Hget.
  { intros field. unfold Lodash.defaultsDeep.
    rewrite mergeWith_leaf; cbn [Lodash.get]; by rewrite String.eqb_refl. }
  split; unfold withData, withParam, withOption, assign_member; run_M;
    cbn [requestData]; rewrite Hget; by destruct v.
Qed.

Lemma member_assignment_needs_container_witness :
  Lodash.is_leaf (JNum 5) = true
  /\ result_of (bind (withData [("params", JNum 5)])
                  (fun _ => withParam (JString "page") (JNum 1))
                  Sample.session)
     = Throws (JsTypeError "Cannot set properties").
Proof.
  split; [reflexivity|].
  apply (proj1 (member_assignment_needs_container (JNum 5) (JString "page")
                  (JNum 1) Sample.session eq_refl)).
Defined.

(** X21. [withParams] and [withOptions] do not interfere: in either
    order the request data read the same under every key. *)
Theorem withParams_withOptions_commute params options s k :
  Lodash.get k
    (requestData
       (session_of (bind (withParams params) (fun _ => withOptions options) s)))
  = Lodash.get k
      (requestData
         (session_of (bind (withOptions options) (fun _ => withParams params) s))).
Proof.
  unfold withParams, withOptions. run_M. cbn [requestData urlParams].
  destruct (decide (k = "params")) as [->|Hp].
  - rewrite get_set_eq, get_set_ne by done. by rewrite get_set_eq.
  - rewrite (get_set_ne k "params") by done.
    destruct (decide (k = "options")) as [->|Ho].
    + rewrite !get_set_eq. done.
    + by rewrite !get_set_ne.
Qed.

End Accumulation.

(** ** A whole request *)

Section WholeRequest.
Import Request.

(** X22. A request made through a verb method with nothing pending,
    from the call to the settlement of the transport: the hook, then the
    transport, called once on the sanitized URL of the supplied params with
    the args shaped from the data that the session held at the call, then
    the reactions, which reset the request data at least once. *)
Theorem verb_request_cycle self requestType supplied o s :
  requestType ∈ allowedRequestTypes (config self) ->
  isAllowedRequestType self (JsString.toLowerCase requestType) (config self)
  = true ->
  (forall url,
      beforeRequest_hook (config self) (JsString.toLowerCase requestType) url
      = Returns tt) ->
  debug (config self) = false ->
  urlParams s = None ->
  let type := JsString.toLowerCase requestType in
  let url := makeUrl self supplied in
  let sanitized := sanitizeUrl self url (trailingSlash (config self)) in
  let args := parseRequestData self type (requestData s) (config self) in
  let run := bind (verb self requestType supplied)
               (fun p => settle self p o) s in
  events_of run
  = ([BeforeRequestHook type url; Transport type sanitized args]
     ++ events_of (settle self (Pending type sanitized args) o s))%list
  /\ count is_dispatch (events_of run) = 1
  /\ 1 <= count is_reset_data (events_of run).
Proof.
  intros Hin Ha Hh Hd Hp type url sanitized args run.
  subst run args sanitized url type.
  unfold verb. rewrite bool_decide_eq_true_2 by done.
  unfold buildRequest, request, beforeRequest, resetURLParams.
  destruct s as [data pending]. cbn [urlParams] in Hp. subst pending.
  run_M; cbn [requestData urlParams]; run_M; rewrite Ha; run_M;
    rewrite Hh, Hd; run_M;
    unfold settle, reactions, afterRequest, onError, resetRequestData,
      resetURLParams; run_M.
  destruct o as [response|error]; run_M.
  all: repeat match goal with
         | |- context [afterRequest_hook ?c ?r] =>
             destruct (afterRequest_hook c r) as [[]|?]; run_M
         | |- context [onError_hook ?c ?e] =>
             destruct (onError_hook c e) as [[]|?]; run_M
         end.
  all: count_log; repeat split; lia.
Qed.

Lemma verb_request_cycle_witness :
  let self := Sample.self false Sample.returns in
  let run := bind (verb self "get" [JString "posts"; JNum 3])
               (fun p => settle self p (Rejected (JsError "timeout")))
               Sample.idle in
  "get" ∈ allowedRequestTypes (config self)
  /\ count is_dispatch (events_of run) = 1
  /\ events_of run
     = [ BeforeRequestHook "get" "posts/3";
         Transport "get" "posts/3" [JObject [("page", JNum 2)]; JObject []];
         ResetRequestData; ResetURLParams; OnErrorHook (JsError "timeout");
         Reject (JsError "timeout") ].
Proof.
  intros self run.
  assert ("get" ∈ allowedRequestTypes (config self)) as Hin.
  { apply (bool_decide_unpack _). vm_compute. exact I. }
  split; [exact Hin|].
  destruct (verb_request_cycle self "get" [JString "posts"; JNum 3]
              (Rejected (JsError "timeout")) Sample.idle Hin eq_refl
              (fun _ => eq_refl) eq_refl eq_refl) as (H1 & H2 & _).
  split; [exact H2|]. fold run in H1. rewrite H1. reflexivity.
Defined.



End WholeRequest.
